(** * qutebrowser: the completion view of the statusbar command section

    A shallow embedding of [qutebrowser/widgets/_completion.py], the
    [CompletionView] widget: the update handler of the command line
    ([on_update_completion]), the traversal of the completion tree
    ([_next_idx], [_next_prev_item]) and the write-back of the selected
    completion ([selectionChanged]).

    The widget is a [QTreeView] over a filter model.  Top-level rows of the
    model are category headers, their children are the completion items.
    What Qt and the filter model contribute is modelled below, each piece
    with a note on where it comes from. *)

From Stdlib Require Import List String Ascii ZArith Bool Arith Lia.
Import ListNotations.
Open Scope string_scope.
Open Scope list_scope.

Set Implicit Arguments.

(** ** The completion tree *)

(** A completion item: the text of column 0 (what is written back to the
    command line) and the texts of the remaining display columns. *)
Record Item := mkItem {
  text : string;
  details : list string
}.

(** A category header with its items. *)
Record Category := mkCategory {
  label : string;
  items : list Item
}.

(** The filter model sitting between a completion source and the view: the
    categories of the source and the pattern the items are filtered by. *)
Record FilterModel := mkFilterModel {
  categories : list Category;
  pattern : string
}.

(** A [QModelIndex] of the filter model (column 0): the invalid index, a
    category header (a top-level row) or an item (a row below a header). *)
Inductive QModelIndex :=
| Invalid
| CatIdx (cat : nat)
| ItemIdx (cat row : nat).

Definition isValid (idx : QModelIndex) : bool :=
  match idx with Invalid => false | _ => true end.

Definition parent (idx : QModelIndex) : QModelIndex :=
  match idx with ItemIdx c _ => CatIdx c | _ => Invalid end.

Definition idx_eqb (a b : QModelIndex) : bool :=
  match a, b with
  | Invalid, Invalid => true
  | CatIdx c, CatIdx c' => Nat.eqb c c'
  | ItemIdx c r, ItemIdx c' r' => Nat.eqb c c' && Nat.eqb r r'
  | _, _ => false
  end.

(** [idx.parent().isValid()]: the test [_next_idx] uses to tell a real item
    from a category header. *)
Definition is_leaf (idx : QModelIndex) : bool := isValid (parent idx).

(** Python's [seq[i]] on a list: negative indices count from the end, and an
    index outside [-len, len) raises [IndexError] (here [None]). *)
Definition py_getitem {A} (l : list A) (i : Z) : option A :=
  let n := Z.of_nat (List.length l) in
  if (0 <=? i)%Z && (i <? n)%Z then nth_error l (Z.to_nat i)
  else if (- n <=? i)%Z && (i <? 0)%Z then nth_error l (Z.to_nat (n + i))
  else None.

Section Completion.

(** The matching policy of the completion source: whether an item passes the
    filter for a pattern.  It belongs to the filter model, which is not part
    of this file. *)
Variable accepts : string -> Item -> bool.

(** The items of each category that pass the filter, in order. *)
Definition shown (m : FilterModel) : list (list Item) :=
  map (fun c => filter (accepts (pattern m)) (items c)) (categories m).

(** Modelled from the spec: the property [item_count] of the filter model,
    the number of items, over all categories, that pass the filter. *)
Definition item_count (m : FilterModel) : nat :=
  fold_right (fun its n => List.length its + n) 0 (shown m).

(** Modelled from the spec: [first_item] of the filter model, the first item
    of the first category that has one; the invalid index when no category
    has an item. *)
Fixpoint first_item_from (c : nat) (cats : list (list Item)) : QModelIndex :=
  match cats with
  | [] => Invalid
  | its :: rest =>
      match its with
      | [] => first_item_from (S c) rest
      | _ :: _ => ItemIdx c 0
      end
  end.

Definition first_item (m : FilterModel) : QModelIndex :=
  first_item_from 0 (shown m).

(** Modelled from the spec: [last_item] of the filter model, the last item
    of the last category that has one; the invalid index when no category
    has an item. *)
Fixpoint last_item_from (c : nat) (cats : list (list Item)) : QModelIndex :=
  match cats with
  | [] => Invalid
  | its :: rest =>
      match last_item_from (S c) rest with
      | Invalid =>
          match its with
          | [] => Invalid
          | _ :: _ => ItemIdx c (List.length its - 1)
          end
      | found => found
      end
  end.

Definition last_item (m : FilterModel) : QModelIndex :=
  last_item_from 0 (shown m).

(** [QAbstractItemModel.data] for the display role: the text of an item, the
    label of a category header, nothing for an index without a row. *)
Definition data (m : FilterModel) (idx : QModelIndex) : option string :=
  match idx with
  | Invalid => None
  | CatIdx c => option_map label (nth_error (categories m) c)
  | ItemIdx c r =>
      match nth_error (shown m) c with
      | Some its => option_map text (nth_error its r)
      | None => None
      end
  end.

(** ** The rows of the tree view *)

(** The rows of the fully expanded [QTreeView] from top to bottom (Qt's
    [viewItems]): every category header followed by its passing items. *)
Fixpoint view_rows (c : nat) (cats : list (list Item)) : list QModelIndex :=
  match cats with
  | [] => []
  | its :: rest =>
      CatIdx c :: map (ItemIdx c) (seq 0 (List.length its)) ++ view_rows (S c) rest
  end.

Definition viewItems (m : FilterModel) : list QModelIndex :=
  view_rows 0 (shown m).

(** Qt's [viewIndex]: the position of an index among the rows. *)
Fixpoint viewIndex (rows : list QModelIndex) (idx : QModelIndex) : option nat :=
  match rows with
  | [] => None
  | r :: rest =>
      if idx_eqb r idx then Some 0 else option_map S (viewIndex rest idx)
  end.

(** [QTreeView.indexBelow]: the row after [idx], the invalid index when
    there is none. *)
Definition indexBelow (m : FilterModel) (idx : QModelIndex) : QModelIndex :=
  match viewIndex (viewItems m) idx with
  | Some i => nth (S i) (viewItems m) Invalid
  | None => Invalid
  end.

(** [QTreeView.indexAbove]: the row before [idx], the invalid index when
    there is none. *)
Definition indexAbove (m : FilterModel) (idx : QModelIndex) : QModelIndex :=
  match viewIndex (viewItems m) idx with
  | Some (S i) => nth i (viewItems m) Invalid
  | _ => Invalid
  end.

(** The items of the view in traversal order. *)
Definition leaves (m : FilterModel) : list QModelIndex :=
  filter is_leaf (viewItems m).

(** ** Navigation: [_next_idx] *)

(** What the view asks of its collaborators and what it signals. *)
Inductive Effect :=
| Hide
| Show
| SetModel (m : nat)
| ResizeCompletion
| ScrollTo (idx : QModelIndex)
| SetPattern (m : nat) (pat : string)
| MarkAllItems (m : nat) (pat : string)
| ChangeCompletedPart (txt : string) (immediate : bool).

(** The [while True] loop of [_next_idx].  Every round moves one row up or
    down, so the number of rows bounds the number of rounds; [fuel] counts
    the rounds left and [None] is a loop that ran out of them. *)
Fixpoint next_idx_loop (fuel : nat) (m : FilterModel) (upwards : bool)
    (idx : QModelIndex) : option (QModelIndex * list Effect) :=
  match fuel with
  | O => None
  | S fuel' =>
      let idx := if upwards then indexAbove m idx else indexBelow m idx in
      if negb (isValid idx) && upwards then
        Some (last_item m, [])
      else if negb (isValid idx) && negb upwards then
        let idx := first_item m in
        Some (idx, [ScrollTo (parent idx)])
      else if isValid (parent idx) then
        Some (idx, [])
      else next_idx_loop fuel' m upwards idx
  end.

(** [_next_idx] on the model of the view and the current index of its
    selection model. *)
Definition _next_idx (m : FilterModel) (current : QModelIndex) (upwards : bool)
    : option (QModelIndex * list Effect) :=
  if negb (isValid current) then
    Some (first_item m, [])
  else next_idx_loop (S (List.length (viewItems m))) m upwards current.

(** [_next_idx] composed with itself [n] times in one direction, every
    result becoming the current index of the next call. *)
Fixpoint iterate_next (m : FilterModel) (upwards : bool) (n : nat)
    (idx : QModelIndex) : option QModelIndex :=
  match n with
  | O => Some idx
  | S n' =>
      match _next_idx m idx upwards with
      | Some (idx', _) => iterate_next m upwards n' idx'
      | None => None
      end
  end.

(** ** The widget *)

(** A completion model is an object shared between the completer, which
    hands it out, and the view, which keeps it in [_model] and [_lastmodel]
    and sets its pattern.  [ModelId] is the identity of such an object; the
    view compares models by identity. *)
Definition ModelId := nat.

(** The options of the [completion] section the view reads. *)
Record Config := mkConfig {
  completion_show : bool;
  completion_quick_complete : bool
}.

(** The attributes of a [CompletionView], with what it shares with Qt and
    the rest of the program: the configuration, the model objects
    ([models] gives the present value of each), whether the widget is
    visible, and the selection model (its current index and selected row). *)
Record CompletionView := mkView {
  config : Config;
  models : ModelId -> FilterModel;
  _enabled : bool;
  _ignore_change : bool;
  _model : option ModelId;
  _lastmodel : option ModelId;
  visible : bool;
  currentIndex : QModelIndex;
  selectedRow : QModelIndex
}.

Definition set_config (v : Config) (s : CompletionView) : CompletionView :=
  mkView v (models s) (_enabled s) (_ignore_change s) (_model s)
    (_lastmodel s) (visible s) (currentIndex s) (selectedRow s).

Definition set_models (v : ModelId -> FilterModel) (s : CompletionView)
    : CompletionView :=
  mkView (config s) v (_enabled s) (_ignore_change s) (_model s)
    (_lastmodel s) (visible s) (currentIndex s) (selectedRow s).

Definition set_enabled (v : bool) (s : CompletionView) : CompletionView :=
  mkView (config s) (models s) v (_ignore_change s) (_model s)
    (_lastmodel s) (visible s) (currentIndex s) (selectedRow s).

Definition set_ignore_change (v : bool) (s : CompletionView) : CompletionView :=
  mkView (config s) (models s) (_enabled s) v (_model s)
    (_lastmodel s) (visible s) (currentIndex s) (selectedRow s).

Definition set__model (v : option ModelId) (s : CompletionView)
    : CompletionView :=
  mkView (config s) (models s) (_enabled s) (_ignore_change s) v
    (_lastmodel s) (visible s) (currentIndex s) (selectedRow s).

Definition set_lastmodel (v : option ModelId) (s : CompletionView)
    : CompletionView :=
  mkView (config s) (models s) (_enabled s) (_ignore_change s) (_model s)
    v (visible s) (currentIndex s) (selectedRow s).

Definition set_visible (v : bool) (s : CompletionView) : CompletionView :=
  mkView (config s) (models s) (_enabled s) (_ignore_change s) (_model s)
    (_lastmodel s) v (currentIndex s) (selectedRow s).

Definition set_currentIndex (v : QModelIndex) (s : CompletionView)
    : CompletionView :=
  mkView (config s) (models s) (_enabled s) (_ignore_change s) (_model s)
    (_lastmodel s) (visible s) v (selectedRow s).

Definition set_selectedRow (v : QModelIndex) (s : CompletionView)
    : CompletionView :=
  mkView (config s) (models s) (_enabled s) (_ignore_change s) (_model s)
    (_lastmodel s) (visible s) (currentIndex s) v.

(** What Qt does when the rows of the model of a view change: the row it
    makes current and selects when the current row is about to go, if any;
    how many times [rowsRemoved] or [rowsInserted] reaches
    [resize_completion]; and where the current index and the selected row
    of the selection model are once the rows have changed. *)
Record QtReaction := mkReaction {
  select_next : option QModelIndex;
  rows_signals : nat;
  current_after : QModelIndex;
  selected_after : QModelIndex
}.

(** Whether two lists are the same, element by element. *)
Fixpoint same_list {A : Type} (same : A -> A -> bool) (l l' : list A) : bool :=
  match l, l' with
  | [], [] => true
  | x :: r, y :: r' => same x y && same_list same r r'
  | _, _ => false
  end.

Definition same_item (a b : Item) : bool :=
  String.eqb (text a) (text b) && same_list String.eqb (details a) (details b).

(** Whether the same items pass, category by category. *)
Definition same_rows (a b : list (list Item)) : bool :=
  same_list (same_list same_item) a b.

(** Qt moves the selection from a current row that is about to go to
    another row: both are items among the rows as they still are. *)
Definition another_row (rows : list QModelIndex) (current idx : QModelIndex)
    : bool :=
  existsb (idx_eqb current) rows && existsb (idx_eqb idx) rows
  && negb (idx_eqb current idx).

(** [m.pattern = pat] on the model object [id]. *)
Definition assign_pattern (id : ModelId) (pat : string)
    (heap : ModelId -> FilterModel) : ModelId -> FilterModel :=
  fun i =>
    if Nat.eqb i id then mkFilterModel (categories (heap id)) pat else heap i.

(** ** Methods as state transformers *)

(** The exceptions the methods can raise.  [LoopExhausted] stands for a
    traversal loop that would not end; [next_idx_loop_total] shows there is no
    such run. *)
Inductive PyExc := IndexError | AttributeError | LoopExhausted.

Inductive Outcome (A : Type) :=
| Return (a : A)
| Raise (e : PyExc).
Arguments Return {A} a.
Arguments Raise {A} e.

(** A run of a method: how it ended, the widget it left and what it asked
    of its collaborators, in order. *)
Record Run (A : Type) := mkRun {
  outcome : Outcome A;
  final : CompletionView;
  effects : list Effect
}.

Definition M (A : Type) := CompletionView -> Run A.

Definition ret {A} (a : A) : M A := fun s => mkRun (Return a) s [].

Definition bind {A B} (c : M A) (k : A -> M B) : M B :=
  fun s =>
    let r := c s in
    match outcome r with
    | Return a =>
        let r' := k a (final r) in
        mkRun (outcome r') (final r') (effects r ++ effects r')
    | Raise e => mkRun (Raise e) (final r) (effects r)
    end.

Definition get : M CompletionView := fun s => mkRun (Return s) s [].

Definition modify (f : CompletionView -> CompletionView) : M unit :=
  fun s => mkRun (Return tt) (f s) [].

Definition raise {A} (e : PyExc) : M A := fun s => mkRun (Raise e) s [].

Definition tell (e : Effect) : M unit := fun s => mkRun (Return tt) s [e].

(** A slot called through a Qt signal, or a method of the view that Qt
    calls: an exception it raises is reported by PyQt where it was called
    and does not reach the caller; what was done before stays done. *)
Definition as_slot (c : M unit) : M unit :=
  fun s => let r := c s in mkRun (Return tt) (final r) (effects r).

Notation "x <- c ;; k" := (bind c (fun x => k))
  (at level 61, c at next level, right associativity).
Notation "c ;; k" := (bind c (fun _ => k))
  (at level 61, right associativity).

(** [Completer._get_new_completion], the completion source registry: the
    model for the parts of the command line and the part under the cursor,
    if there is one.  The completer is not part of this file. *)
Variable _get_new_completion : list string -> Z -> option ModelId.

(** The command line at the other end of [change_completed_part]: the
    [update_completion] signals (prefix, parts, cursor part) it sends back,
    synchronously, when it substitutes the text it was given. *)
Variable text_input_echo : string -> bool -> list (string * list string * Z).

(** Qt at the other end of the filter model: what it does to the view when
    a new pattern changes the rows, given the model before and after and
    the current index and the selected row of the selection model.  Every
    theorem below holds whatever Qt answers. *)
Variable qt_rows_changed :
  FilterModel -> FilterModel -> QModelIndex -> QModelIndex -> QtReaction.

Definition hide : M unit := modify (set_visible false) ;; tell Hide.

Definition show : M unit := modify (set_visible true) ;; tell Show.

(** [__init__]: nothing to complete yet, the widget hidden. *)
Definition init (cfg : Config) (heap : ModelId -> FilterModel) : CompletionView :=
  mkView cfg heap (completion_show cfg) false None None false Invalid Invalid.

Definition model_eqb (a b : option ModelId) : bool :=
  match a, b with
  | None, None => true
  | Some x, Some y => Nat.eqb x y
  | _, _ => false
  end.

(** [set_model].  [QTreeView.setModel] returns at once when it is given the
    model the view has already, and the selection stays; any other model
    comes with a new selection model, without a current index or a
    selection.  The model of the view is [_model]: the two are only ever
    set here, one after the other.  [expandAll] and [_resize_columns] only
    lay the rows out; the two [connect] calls are what makes a change of
    the rows emit [resize_completion], see [set_pattern_in]. *)
Definition set_model (model : ModelId) : M unit :=
  tell (SetModel model) ;;
  self <- get ;;
  (if model_eqb (_model self) (Some model) then ret tt
   else modify (fun s => set_selectedRow Invalid (set_currentIndex Invalid s))) ;;
  modify (set__model (Some model)) ;;
  tell ResizeCompletion.

(** *** Methods that call each other through Qt

    [on_update_completion] sets the pattern; when that takes the current
    row away Qt selects another and calls [selectionChanged], which writes
    the text back to the command line, which answers with
    [update_completion], the signal [on_update_completion] is the slot of.
    The methods are defined once for any handler [reenter] of that answer;
    the handler is fixed after the section. *)
Section Reentered.

Variable reenter : string -> list string -> Z -> M unit.

(** The slots of the command line answering one [change_completed_part]. *)
Fixpoint deliver_in (echo : list (string * list string * Z)) : M unit :=
  match echo with
  | [] => ret tt
  | (prefix, parts, cursor_part) :: rest =>
      as_slot (reenter prefix parts cursor_part) ;; deliver_in rest
  end.

(** [change_completed_part.emit(txt, immediate)]. *)
Definition emit_change_completed_part_in (txt : string) (immediate : bool)
    : M unit :=
  tell (ChangeCompletedPart txt immediate) ;;
  deliver_in (text_input_echo txt immediate).

(** [selectionChanged]; [selected] is [selected.indexes()].  The call of
    the base class at the end only repaints. *)
Definition selectionChanged_in (selected deselected : list QModelIndex)
    : M unit :=
  match selected with
  | [] => ret tt
  | idx :: _ =>
      self <- get ;;
      match _model self with
      | None => raise AttributeError
      | Some m =>
          match data (models self m) idx with
          | None => ret tt
          | Some d =>
              if Nat.eqb (item_count (models self m)) 1
                 && completion_quick_complete (config self)
              then emit_change_completed_part_in d true
              else
                modify (set_ignore_change true) ;;
                emit_change_completed_part_in d false ;;
                modify (set_ignore_change false)
          end
      end
  end.

(** [QItemSelectionModel.setCurrentIndex(idx, ClearAndSelect | Rows)]: the
    index becomes current and its row the selection; the view is told, by
    [selectionChanged], when the selection is not what it was. *)
Definition setCurrentIndex_in (idx : QModelIndex) : M unit :=
  self <- get ;;
  let old := selectedRow self in
  modify (set_currentIndex idx) ;;
  modify (set_selectedRow idx) ;;
  if idx_eqb old idx then ret tt
  else selectionChanged_in (if isValid idx then [idx] else [])
                           (if isValid old then [old] else []).

(** [self._model.pattern = pattern].  With the same rows passing as before
    Qt has nothing to do.  Otherwise, in this order: while the rows that go
    are still rows of the model ([rowsAboutToBeRemoved]), a view in single
    selection, as a [QTreeView] is unless told otherwise, that is about to
    lose its current row makes a row that stays the current one and selects
    it, as [setCurrentIndex] does, and is told by [selectionChanged]; the
    rows change; [rowsRemoved] and [rowsInserted] are emitted, and with them
    [resize_completion] through the connections of [set_model]; the indices
    of the selection model follow their rows to where these are now.  The
    row Qt selects is an item, as is the row it leaves: category headers
    are disabled rows, which Qt does not select; so [another_row] holds of
    every selection Qt makes here.  A selection that is only cleared
    reaches [selectionChanged] with nothing selected, which does
    nothing. *)
Definition set_pattern_in (pat : string) : M unit :=
  self <- get ;;
  match _model self with
  | None => raise AttributeError
  | Some m =>
      let before := models self m in
      let after := mkFilterModel (categories before) pat in
      let write :=
        modify (fun s => set_models (assign_pattern m pat (models s)) s) in
      tell (SetPattern m pat) ;;
      if same_rows (shown before) (shown after) then write
      else
        let qt :=
          qt_rows_changed before after (currentIndex self) (selectedRow self) in
        (match select_next qt with
         | Some idx =>
             if another_row (leaves before) (currentIndex self) idx
             then as_slot (setCurrentIndex_in idx)
             else ret tt
         | None => ret tt
         end) ;;
        write ;;
        fold_right (fun e k => tell e ;; k) (ret tt)
          (repeat ResizeCompletion (rows_signals qt)) ;;
        modify (fun s => set_selectedRow (selected_after qt)
                           (set_currentIndex (current_after qt) s))
  end.

(** [on_update_completion], the slot of the command line's
    [update_completion] signal. *)
Definition on_update_completion_in (prefix : string) (parts : list string)
    (cursor_part : Z) : M unit :=
  self <- get ;;
  if _ignore_change self then ret tt
  else if negb (String.eqb prefix ":") then hide
  else
    let model := _get_new_completion parts cursor_part in
    go_on <- (if negb (model_eqb model (_lastmodel self)) then
                modify (set_lastmodel model) ;;
                match model with
                | None => hide ;; ret false
                | Some m => set_model m ;; ret true
                end
              else ret true) ;;
    if negb go_on then ret tt
    else
      match model with
      | None => ret tt
      | Some _ =>
          pat <- (match parts with
                  | [] => ret ""
                  | _ :: _ =>
                      match py_getitem parts cursor_part with
                      | Some p => ret p
                      | None => raise IndexError
                      end
                  end) ;;
          set_pattern_in pat ;;
          self <- get ;;
          match _model self with
          | None => raise AttributeError
          | Some m =>
              if Nat.eqb (item_count (models self m)) 0 then hide
              else
                tell (MarkAllItems m pat) ;;
                if _enabled self then show else ret tt
          end
      end.

End Reentered.

(** The first test of [on_update_completion] when the guard is up:
    [if self._ignore_change: return]. *)
Definition returns_at_once (prefix : string) (parts : list string)
    (cursor_part : Z) : M unit :=
  ret tt.

(** [on_update_completion].  Inside it the command line only ever answers a
    write-back made with the guard up, see [set_pattern_in_facts], and
    there the slot is [returns_at_once]; [on_update_completion_reentered]
    shows that the method so defined is the one that re-enters itself. *)
Definition on_update_completion : string -> list string -> Z -> M unit :=
  on_update_completion_in returns_at_once.

Definition set_pattern : string -> M unit := set_pattern_in returns_at_once.

Definition deliver : list (string * list string * Z) -> M unit :=
  deliver_in on_update_completion.

Definition emit_change_completed_part : string -> bool -> M unit :=
  emit_change_completed_part_in on_update_completion.

Definition selectionChanged : list QModelIndex -> list QModelIndex -> M unit :=
  selectionChanged_in on_update_completion.

Definition setCurrentIndex : QModelIndex -> M unit :=
  setCurrentIndex_in on_update_completion.

(** [_next_prev_item].  Without a model the view has no selection model. *)
Definition _next_prev_item (prev : bool) : M unit :=
  self <- get ;;
  if negb (visible self) then ret tt
  else
    match _model self with
    | None => raise AttributeError
    | Some m =>
        match _next_idx (models self m) (currentIndex self) prev with
        | None => raise LoopExhausted
        | Some (idx, scrolls) =>
            fold_right (fun e k => tell e ;; k) (ret tt) scrolls ;;
            setCurrentIndex idx
        end
    end.

Definition completion_item_prev : M unit := _next_prev_item true.

Definition completion_item_next : M unit := _next_prev_item false.

(** [on_clear_completion_selection]. *)
Definition on_clear_completion_selection : M unit :=
  self <- get ;;
  match _model self with
  | None => ret tt
  | Some _ =>
      let old := selectedRow self in
      modify (set_selectedRow Invalid) ;;
      (if isValid old then selectionChanged [] [old] else ret tt) ;;
      modify (set_currentIndex Invalid)
  end.

(** [on_config_changed].  The class has no [_init_command_completion], so
    the branch for the aliases ends in an [AttributeError]. *)
Definition on_config_changed (section option : string) : M unit :=
  if String.eqb section "completion" && String.eqb option "show" then
    self <- get ;;
    modify (set_enabled (completion_show (config self)))
  else if String.eqb section "aliases" then raise AttributeError
  else ret tt.

(** ** Runs of the widget *)

(** What can happen to a view: one of its slots or commands is called, Qt
    reports a change of the selection, or the configuration is changed
    under it. *)
Inductive Call :=
| UpdateCompletion (prefix : string) (parts : list string) (cursor_part : Z)
| SelectionChanged (selected deselected : list QModelIndex)
| CompletionItemNext
| CompletionItemPrev
| ClearCompletionSelection
| ConfigChanged (section option : string)
| ConfigSet (cfg : Config).

Definition dispatch (c : Call) : M unit :=
  match c with
  | UpdateCompletion prefix parts cursor_part =>
      on_update_completion prefix parts cursor_part
  | SelectionChanged selected deselected => selectionChanged selected deselected
  | CompletionItemNext => completion_item_next
  | CompletionItemPrev => completion_item_prev
  | ClearCompletionSelection => on_clear_completion_selection
  | ConfigChanged section option => on_config_changed section option
  | ConfigSet cfg => modify (set_config cfg)
  end.

(** The views a newly made one can become, whatever the calls. *)
Inductive reachable : CompletionView -> Prop :=
| reachable_init cfg heap : reachable (init cfg heap)
| reachable_step s c : reachable s -> reachable (final (dispatch c s)).

End Completion.

Arguments Return {A} a.
Arguments Raise {A} e.
Arguments selectionChanged_in : simpl never.
Arguments setCurrentIndex_in : simpl never.
Arguments set_pattern_in : simpl never.
Arguments set_pattern : simpl never.

(** ** Column widths: [_resize_columns] *)

(** The class attribute [COLUMN_WIDTHS], in percent. *)
Definition COLUMN_WIDTHS : list Z := [20; 70; 10]%Z.

(** [l[-1] -= d]; on an empty list Python raises [IndexError] (here
    [None]). *)
Fixpoint sub_last (l : list Z) (d : Z) : option (list Z) :=
  match l with
  | [] => None
  | [x] => Some [(x - d)%Z]
  | x :: rest => option_map (cons x) (sub_last rest d)
  end.

(** Python's [enumerate]. *)
Definition enumerate {A} (l : list A) : list (nat * A) :=
  combine (seq 0 (List.length l)) l.

(** [_resize_columns] for a view [width] pixels wide, with or without a
    visible vertical scroll bar of [extent] pixels
    ([PM_ScrollBarExtent]): the calls [setColumnWidth(i, w)] it makes, in
    order.  [//] is the division of [Z], which rounds down. *)
Definition _resize_columns (width : Z) (scrollbar_visible : bool) (extent : Z)
    : option (list (nat * Z)) :=
  let pixel_widths := map (fun perc => (width * perc / 100)%Z) COLUMN_WIDTHS in
  option_map (@enumerate Z)
    (if scrollbar_visible then sub_last pixel_widths (extent + 5)
     else Some pixel_widths).

(** The sum of the widths the columns are given. *)
Definition total_width (calls : list (nat * Z)) : Z :=
  fold_right (fun c acc => (snd c + acc)%Z) 0%Z calls.

(** ** The bookmark importer: [scripts/importer.py] *)

(** An [a] element as BeautifulSoup hands it out: [tag.string], which is
    [None] when the element has no single text child, and the attributes. *)
Record Tag := mkTag {
  tag_string : option string;
  attrs : list (string * string)
}.

(** [tag[key]]: the attribute, [KeyError] (here [None]) when the element
    does not have it. *)
Fixpoint tag_getitem (l : list (string * string)) (key : string)
    : option string :=
  match l with
  | [] => None
  | (k, v) :: rest => if String.eqb k key then Some v else tag_getitem rest key
  end.

(** [str(tag.string)] as [format] inserts it. *)
Definition str_of (o : option string) : string :=
  match o with Some t => t | None => "None" end.

(** ['{tag.string} {tag[href]}'.format(tag=tag)] for an element whose
    [href] is [href]. *)
Definition format_bookmark (tag : Tag) (href : string) : string :=
  str_of (tag_string tag) ++ " " ++ href.

(** [x in bookmarks] on a list of strings. *)
Definition py_in (x : string) (l : list string) : bool :=
  existsb (String.eqb x) l.

(** The first loop of [import_chromium] over the elements found, with the
    bookmarks collected so far; [None] is the [KeyError] of an element
    without [href]. *)
Fixpoint collect_bookmarks (html_tags : list Tag) (bookmarks : list string)
    : option (list string) :=
  match html_tags with
  | [] => Some bookmarks
  | tag :: rest =>
      match tag_getitem (attrs tag) "href" with
      | None => None
      | Some href =>
          if negb (py_in href bookmarks) then
            collect_bookmarks rest (bookmarks ++ [format_bookmark tag href])
          else collect_bookmarks rest bookmarks
      end
  end.

(** [import_chromium] on the [a] elements of the bookmarks file: the lines
    it prints, or [None] for the [KeyError] that ends it before anything is
    printed. *)
Definition import_chromium (html_tags : list Tag) : option (list string) :=
  collect_bookmarks html_tags [].

(** The line printed for an element that has an [href]. *)
Definition bookmark_line (tag : Tag) : string :=
  match tag_getitem (attrs tag) "href" with
  | Some href => format_bookmark tag href
  | None => format_bookmark tag ""
  end.

(** Whether a string has a space in it. *)
Fixpoint has_space (t : string) : bool :=
  match t with
  | EmptyString => false
  | String c rest => Ascii.eqb c " "%char || has_space rest
  end.

(** Two bookmarks of the same page. *)
Definition twice_bookmarked : list Tag :=
  [mkTag (Some "Home") [("href", "http://example.org/")];
   mkTag (Some "Home again") [("add_date", "1"); ("href", "http://example.org/")]].

(** ** Views that agree *)

(** Two views with the same attributes and the same model objects. *)
Definition view_eq (s s' : CompletionView) : Prop :=
  config s = config s' /\ (forall i, models s i = models s' i) /\
  _enabled s = _enabled s' /\ _ignore_change s = _ignore_change s' /\
  _model s = _model s' /\ _lastmodel s = _lastmodel s' /\
  visible s = visible s' /\ currentIndex s = currentIndex s' /\
  selectedRow s = selectedRow s'.

(** ** Sample models *)

(** A source that lets every item pass, and one that matches the pattern
    against the beginning of the text of an item. *)
Definition accept_all : string -> Item -> bool := fun _ _ => true.

Definition accept_prefix : string -> Item -> bool :=
  fun pat it => String.prefix pat (text it).

(** A source of which no item passes. *)
Definition accept_none : string -> Item -> bool := fun _ _ => false.

(** The commands [open] and [open-tab] in one category. *)
Definition commands : FilterModel :=
  mkFilterModel
    [mkCategory "Commands"
       [mkItem "open" ["Open a page"]; mkItem "open-tab" ["Open a tab"]]]
    "".

(** Three categories, the one in the middle without items. *)
Definition sections : FilterModel :=
  mkFilterModel
    [mkCategory "general" [mkItem "editor" []; mkItem "startpage" []];
     mkCategory "empty" [];
     mkCategory "tabs" [mkItem "wrap" []]]
    "".

(** A single value, the empty string. *)
Definition blank_value : FilterModel :=
  mkFilterModel [mkCategory "Values" [mkItem "" ["Nothing"]]] "".

(** A single command. *)
Definition single : FilterModel :=
  mkFilterModel [mkCategory "Commands" [mkItem "quit" ["Quit"]]] "".

(** ** What holds of every view *)

(** A visible view has a last model, and the last model is the model of
    the view. *)
Definition consistent (s : CompletionView) : Prop :=
  (visible s = true -> _lastmodel s <> None) /\
  (forall id, _lastmodel s = Some id -> _model s = Some id).

(** ** Sample views *)

Definition quick_off : Config := mkConfig true false.

Definition quick_on : Config := mkConfig true true.

(** A completer that always answers with the model object 0, and one that
    has nothing to offer. *)
Definition always_model : list string -> Z -> option ModelId :=
  fun _ _ => Some 0.

Definition never_model : list string -> Z -> option ModelId :=
  fun _ _ => None.

(** A command line that answers every write-back with one update of its
    own, and one that stays silent. *)
Definition echo_once : string -> bool -> list (string * list string * Z) :=
  fun txt _ => [(":", [txt], 0%Z)].

Definition echo_none : string -> bool -> list (string * list string * Z) :=
  fun _ _ => [].

(** Qt leaving the selection on the row it is on, and Qt moving it from a
    row that goes to the row below, which is the first row afterwards. *)
Definition qt_stays
    : FilterModel -> FilterModel -> QModelIndex -> QModelIndex -> QtReaction :=
  fun _ _ current selected => mkReaction None 1 current selected.

Definition qt_row_below
    : FilterModel -> FilterModel -> QModelIndex -> QModelIndex -> QtReaction :=
  fun _ _ current selected =>
    match current with
    | ItemIdx c r =>
        mkReaction (Some (ItemIdx c (S r))) 1 (ItemIdx c 0) (ItemIdx c 0)
    | _ => mkReaction None 1 current selected
    end.

(** A view showing the model [m] after the first update of a command
    line. *)
Definition showing (cfg : Config) (m : FilterModel) : CompletionView :=
  final (on_update_completion accept_all always_model echo_once qt_stays
           ":" [] 0 (init cfg (fun _ => m))).

(** A completer with the model object 0 for the first part of the command
    line and nothing for the parts after it. *)
Definition first_part_model : list string -> Z -> option ModelId :=
  fun _ cursor_part => if (cursor_part =? 0)%Z then Some 0 else None.

(** The commands, matched by the beginning of their text, with the first
    one selected by the tab key; and the same view after the cursor has
    gone on to a second part, for which the completer has nothing. *)
Definition first_selected : CompletionView :=
  final (_next_prev_item accept_prefix first_part_model echo_once qt_row_below
           false
           (final (on_update_completion accept_prefix first_part_model
                     echo_once qt_row_below ":" [""] 0
                     (init quick_off (fun _ => commands))))).

Definition second_part : CompletionView :=
  final (on_update_completion accept_prefix first_part_model echo_once
           qt_row_below ":" [""; "x"] 1 first_selected).

(** ** Handlers under the guard *)

(** A handler of [update_completion] that does nothing while
    [_ignore_change] is set. *)
Definition ignores_under_guard (h : string -> list string -> Z -> M unit)
    : Prop :=
  forall prefix parts cursor_part s,
    _ignore_change s = true ->
    final (h prefix parts cursor_part s) = s /\
    effects (h prefix parts cursor_part s) = [].

(** ** Positions in the traversal *)

(** The category a row belongs to. *)
Definition cat_of (idx : QModelIndex) : nat :=
  match idx with Invalid => 0 | CatIdx c => c | ItemIdx c _ => c end.

(** One step through [n] items counted from 0: forwards with the last item
    followed by the first, backwards with the first followed by the last. *)
Definition fwd (n k : nat) : nat := if (S k <? n)%nat then S k else 0.

Definition bwd (n k : nat) : nat :=
  match k with O => n - 1 | S j => j end.

Definition pos_step (upwards : bool) (n k : nat) : nat :=
  if upwards then bwd n k else fwd n k.

Fixpoint iter_pos (f : nat -> nat) (j k : nat) : nat :=
  match j with O => k | S j' => iter_pos f j' (f k) end.

(** ** Navigation over the rows *)

Section Navigator.

Variable accepts : string -> Item -> bool.

Lemma idx_eqb_eq (a b : QModelIndex) : idx_eqb a b = true <-> a = b.
Proof.
  destruct a, b; simpl; split; intro H; try congruence; try discriminate.
  - apply Nat.eqb_eq in H. congruence.
  - inversion H. apply Nat.eqb_refl.
  - apply andb_true_iff in H. destruct H as [H1 H2].
    apply Nat.eqb_eq in H1. apply Nat.eqb_eq in H2. congruence.
  - inversion H. now rewrite !Nat.eqb_refl.
Qed.

Lemma idx_eqb_refl (a : QModelIndex) : idx_eqb a a = true.
Proof. now apply idx_eqb_eq. Qed.

Lemma idx_eqb_neq (a b : QModelIndex) : a <> b -> idx_eqb a b = false.
Proof.
  intro H. destruct (idx_eqb a b) eqn:E; [|reflexivity].
  apply idx_eqb_eq in E. contradiction.
Qed.

Lemma view_rows_cat (cats : list (list Item)) :
  forall c x, In x (view_rows c cats) -> isValid x = true /\ c <= cat_of x.
Proof.
  induction cats as [|its rest IH]; intros c x H; simpl in H; [contradiction|].
  destruct H as [H|H].
  - subst x. simpl. auto.
  - apply in_app_or in H. destruct H as [H|H].
    + apply in_map_iff in H. destruct H as [r [Hr _]]. subst x. simpl. auto.
    + apply IH in H. destruct H as [Hv Hc]. split; [assumption|lia].
Qed.

Lemma view_rows_NoDup (cats : list (list Item)) :
  forall c, NoDup (view_rows c cats).
Proof.
  induction cats as [|its rest IH]; intro c; simpl; [constructor|].
  constructor.
  - intro H. apply in_app_or in H. destruct H as [H|H].
    + apply in_map_iff in H. destruct H as [r [Hr _]]. discriminate.
    + apply view_rows_cat in H. simpl in H. lia.
  - apply NoDup_app.
    + apply NoDup_map_inv with (f := fun x => match x with ItemIdx _ r => r | _ => 0 end).
      rewrite map_map. simpl. rewrite map_id. apply seq_NoDup.
    + apply IH.
    + intros x H1 H2. apply in_map_iff in H1. destruct H1 as [r [Hr _]].
      subst x. apply view_rows_cat in H2. simpl in H2. lia.
Qed.

Lemma viewItems_valid (m : FilterModel) (x : QModelIndex) :
  In x (viewItems accepts m) -> isValid x = true.
Proof. intro H. now apply view_rows_cat in H. Qed.

Lemma viewItems_NoDup (m : FilterModel) : NoDup (viewItems accepts m).
Proof. apply view_rows_NoDup. Qed.

Lemma viewIndex_app (pre post : list QModelIndex) (x : QModelIndex) :
  ~ In x pre -> viewIndex (pre ++ x :: post) x = Some (List.length pre).
Proof.
  induction pre as [|p pre IH]; intro H; simpl.
  - now rewrite idx_eqb_refl.
  - rewrite idx_eqb_neq by (intro E; apply H; left; exact E).
    rewrite IH by (intro E; apply H; right; exact E). reflexivity.
Qed.

Lemma viewIndex_notin (rows : list QModelIndex) (x : QModelIndex) :
  ~ In x rows -> viewIndex rows x = None.
Proof.
  induction rows as [|r rows IH]; intro H; simpl; [reflexivity|].
  rewrite idx_eqb_neq by (intro E; apply H; left; exact E).
  rewrite IH by (intro E; apply H; right; exact E). reflexivity.
Qed.

Lemma In_NoDup_split (l : list QModelIndex) (x : QModelIndex) :
  NoDup l -> In x l ->
  exists pre post, l = pre ++ x :: post /\ ~ In x pre /\ ~ In x post.
Proof.
  intros Hnd Hin. apply in_split in Hin. destruct Hin as [pre [post E]].
  exists pre, post. subst l. apply NoDup_remove_2 in Hnd.
  repeat split; auto; intro H; apply Hnd; apply in_or_app; auto.
Qed.

(** *** The loop of [_next_idx] *)

Lemma nth_after (pre post : list QModelIndex) (x : QModelIndex) :
  nth (S (List.length pre)) (pre ++ x :: post) Invalid = hd Invalid post.
Proof.
  induction pre as [|p pre IH]; simpl; [now destruct post|exact IH].
Qed.

Lemma nth_snoc (pre post : list QModelIndex) (y : QModelIndex) :
  nth (List.length pre) ((pre ++ [y]) ++ post) Invalid = y.
Proof. induction pre as [|p pre IH]; simpl; [reflexivity|exact IH]. Qed.

(** Downwards the loop stops at the first item below, or wraps to the
    first item of the model when there is none. *)
Lemma next_idx_loop_down (m : FilterModel) (post : list QModelIndex) :
  forall pre x fuel,
    viewItems accepts m = pre ++ x :: post ->
    List.length post < fuel ->
    next_idx_loop accepts fuel m false x =
    Some (match filter is_leaf post with
          | y :: _ => (y, [])
          | [] => (first_item accepts m,
                   [ScrollTo (parent (first_item accepts m))])
          end).
Proof.
  induction post as [|y post IH]; intros pre x fuel E Hfuel;
    (destruct fuel as [|fuel]; [simpl in Hfuel; lia|]);
    pose proof (viewItems_NoDup m) as Hnd; rewrite E in Hnd;
    simpl; unfold indexBelow; rewrite E;
    rewrite viewIndex_app
      by (apply NoDup_remove_2 in Hnd; intro H; apply Hnd; apply in_or_app; auto);
    rewrite nth_after; simpl.
  - reflexivity.
  - assert (Hy : isValid y = true).
    { apply viewItems_valid with (m := m). rewrite E.
      apply in_or_app. right. right. left. reflexivity. }
    rewrite Hy. simpl. unfold is_leaf.
    destruct (isValid (parent y)) eqn:Hl; [reflexivity|].
    apply IH with (pre := pre ++ [x]).
    + rewrite E, <- app_assoc. reflexivity.
    + simpl in Hfuel. lia.
Qed.

(** Upwards the loop stops at the first item above, or wraps to the last
    item of the model when there is none. *)
Lemma next_idx_loop_up (m : FilterModel) (pre : list QModelIndex) :
  forall post x fuel,
    viewItems accepts m = pre ++ x :: post ->
    List.length pre < fuel ->
    next_idx_loop accepts fuel m true x =
    Some (match filter is_leaf (rev pre) with
          | y :: _ => y
          | [] => last_item accepts m
          end, []).
Proof.
  induction pre as [|y pre IH] using rev_ind; intros post x fuel E Hfuel;
    (destruct fuel as [|fuel]; [simpl in Hfuel; lia|]);
    pose proof (viewItems_NoDup m) as Hnd; rewrite E in Hnd;
    simpl; unfold indexAbove; rewrite E;
    rewrite viewIndex_app
      by (apply NoDup_remove_2 in Hnd; intro H; apply Hnd; apply in_or_app; auto).
  - reflexivity.
  - rewrite length_app, Nat.add_1_r, nth_snoc, rev_app_distr. simpl.
    assert (Hy : isValid y = true).
    { apply viewItems_valid with (m := m). rewrite E.
      apply in_or_app. left. apply in_or_app. right. left. reflexivity. }
    rewrite Hy. simpl. unfold is_leaf.
    destruct (isValid (parent y)) eqn:Hl; [reflexivity|].
    apply IH with (post := x :: post).
    + rewrite E, <- app_assoc. reflexivity.
    + rewrite length_app in Hfuel. simpl in Hfuel. lia.
Qed.

(** *** The items in traversal order *)

Lemma leaves_rows (c : nat) (its : list Item) (rest : list (list Item)) :
  filter is_leaf (view_rows c (its :: rest)) =
  map (ItemIdx c) (seq 0 (List.length its)) ++ filter is_leaf (view_rows (S c) rest).
Proof.
  simpl. rewrite filter_app. f_equal.
  induction (seq 0 (List.length its)) as [|r l IH]; simpl; [reflexivity|].
  now rewrite IH.
Qed.

Lemma last_app_cons (l1 l2 : list QModelIndex) (y d : QModelIndex) :
  last (l1 ++ y :: l2) d = last (y :: l2) d.
Proof.
  induction l1 as [|a l1 IH]; [reflexivity|].
  simpl app. rewrite <- IH. simpl. destruct (l1 ++ y :: l2) eqn:E; [|reflexivity].
  destruct l1; discriminate.
Qed.

Lemma first_item_from_hd (cats : list (list Item)) :
  forall c, first_item_from c cats = hd Invalid (filter is_leaf (view_rows c cats)).
Proof.
  induction cats as [|its rest IH]; intro c; [reflexivity|].
  rewrite leaves_rows. simpl. destruct its; simpl; [apply IH|reflexivity].
Qed.

Lemma last_item_from_last (cats : list (list Item)) :
  forall c, last_item_from c cats = last (filter is_leaf (view_rows c cats)) Invalid.
Proof.
  induction cats as [|its rest IH]; intro c; [reflexivity|].
  rewrite leaves_rows. simpl. rewrite IH.
  destruct (filter is_leaf (view_rows (S c) rest)) as [|y l] eqn:E.
  - simpl. rewrite app_nil_r. destruct its as [|i its]; [reflexivity|].
    replace (List.length (i :: its)) with (List.length its + 1) by (simpl; lia).
    rewrite seq_app, map_app. simpl. rewrite last_last. f_equal. lia.
  - assert (Hy : last (y :: l) Invalid <> Invalid).
    { assert (Hin : In (last (y :: l) Invalid) (y :: l)).
      { destruct (exists_last (l := y :: l)) as [l' [z Ez]]; [discriminate|].
        rewrite Ez, last_last. apply in_or_app. right. left. reflexivity. }
      assert (Hin' : In (last (y :: l) Invalid)
                        (filter is_leaf (view_rows (S c) rest)))
        by (rewrite E; exact Hin).
      apply filter_In in Hin'. destruct Hin' as [Hin' _].
      apply view_rows_cat in Hin'. destruct Hin' as [Hv _].
      intro Hbad. rewrite Hbad in Hv. discriminate. }
    rewrite last_app_cons.
    destruct (last (y :: l) Invalid); [congruence|reflexivity|reflexivity].
Qed.

Lemma first_item_hd (m : FilterModel) :
  first_item accepts m = hd Invalid (leaves accepts m).
Proof. apply first_item_from_hd. Qed.

Lemma last_item_last (m : FilterModel) :
  last_item accepts m = last (leaves accepts m) Invalid.
Proof. apply last_item_from_last. Qed.

Lemma count_rows (cats : list (list Item)) :
  forall c,
    fold_right (fun its n => List.length its + n) 0 cats =
    List.length (filter is_leaf (view_rows c cats)).
Proof.
  induction cats as [|its rest IH]; intro c; [reflexivity|].
  rewrite leaves_rows, length_app, length_map, length_seq. simpl.
  now rewrite (IH (S c)).
Qed.

(** [item_count] counts the items of the view. *)
Lemma item_count_leaves (m : FilterModel) :
  item_count accepts m = List.length (leaves accepts m).
Proof. apply count_rows. Qed.

Lemma leaves_is_leaf (m : FilterModel) (x : QModelIndex) :
  In x (leaves accepts m) -> is_leaf x = true.
Proof. intro H. apply filter_In in H. tauto. Qed.

Lemma filter_split (l : list QModelIndex) :
  forall l1 x l2,
    filter is_leaf l = l1 ++ x :: l2 ->
    exists pre post,
      l = pre ++ x :: post /\ filter is_leaf pre = l1 /\ filter is_leaf post = l2.
Proof.
  induction l as [|a l IH]; intros l1 x l2 E; simpl in E.
  - destruct l1; discriminate.
  - destruct (is_leaf a) eqn:Ha.
    + destruct l1 as [|b l1]; simpl in E; injection E as Ea El.
      * subst a. exists [], l. simpl. auto.
      * subst b. destruct (IH _ _ _ El) as [pre [post [E1 [E2 E3]]]].
        exists (a :: pre), post. subst l. simpl. rewrite Ha, E2. auto.
    + destruct (IH _ _ _ E) as [pre [post [E1 [E2 E3]]]].
      exists (a :: pre), post. subst l. simpl. rewrite Ha. auto.
Qed.

(** *** One step from an item *)

Lemma leaf_valid (x : QModelIndex) : is_leaf x = true -> isValid x = true.
Proof. destruct x; cbv; congruence. Qed.

Lemma next_idx_down_leaf (m : FilterModel) (l1 l2 : list QModelIndex)
    (x : QModelIndex) :
  leaves accepts m = l1 ++ x :: l2 ->
  _next_idx accepts m x false =
  Some (match l2 with
        | y :: _ => (y, [])
        | [] => (first_item accepts m,
                 [ScrollTo (parent (first_item accepts m))])
        end).
Proof.
  intro E. assert (Hx : is_leaf x = true).
  { apply leaves_is_leaf with (m := m). rewrite E. apply in_or_app.
    right. left. reflexivity. }
  destruct (filter_split _ _ _ _ E) as [pre [post [Er [E1 E2]]]].
  unfold _next_idx. rewrite (leaf_valid _ Hx). simpl negb. cbv iota.
  rewrite (next_idx_loop_down m post pre x Er).
  - now rewrite E2.
  - fold (viewItems accepts m). rewrite Er, length_app. simpl. lia.
Qed.

Lemma next_idx_up_leaf (m : FilterModel) (l1 l2 : list QModelIndex)
    (x : QModelIndex) :
  leaves accepts m = l1 ++ x :: l2 ->
  _next_idx accepts m x true =
  Some (match rev l1 with
        | y :: _ => y
        | [] => last_item accepts m
        end, []).
Proof.
  intro E. assert (Hx : is_leaf x = true).
  { apply leaves_is_leaf with (m := m). rewrite E. apply in_or_app.
    right. left. reflexivity. }
  destruct (filter_split _ _ _ _ E) as [pre [post [Er [E1 E2]]]].
  unfold _next_idx. rewrite (leaf_valid _ Hx). simpl negb. cbv iota.
  rewrite (next_idx_loop_up m pre post x Er).
  - now rewrite filter_rev, E1.
  - fold (viewItems accepts m). rewrite Er, length_app. simpl. lia.
Qed.

Lemma nth_last (l : list QModelIndex) :
  nth (List.length l - 1) l Invalid = last l Invalid.
Proof.
  induction l as [|a l IH]; [reflexivity|].
  destruct l as [|b l]; [reflexivity|].
  simpl in *. now rewrite Nat.sub_0_r in IH.
Qed.

(** From the item at position [k] a step leads to the item at the next
    position, around the ends. *)
Lemma next_idx_pos (m : FilterModel) (upwards : bool) (k : nat) :
  k < List.length (leaves accepts m) ->
  option_map fst (_next_idx accepts m (nth k (leaves accepts m) Invalid) upwards) =
  Some (nth (pos_step upwards (List.length (leaves accepts m)) k)
            (leaves accepts m) Invalid).
Proof.
  intro Hk.
  destruct (nth_split (leaves accepts m) Invalid Hk) as [l1 [l2 [E Hl1]]].
  set (x := nth k (leaves accepts m) Invalid) in *.
  assert (Hn : List.length (leaves accepts m) = k + S (List.length l2)).
  { rewrite E, length_app. simpl. lia. }
  destruct upwards; simpl pos_step.
  - rewrite (next_idx_up_leaf m l1 l2 x E). simpl. f_equal.
    destruct k as [|j]; simpl bwd.
    + destruct l1; [|discriminate]. simpl. rewrite last_item_last.
      symmetry. apply nth_last.
    + destruct (rev l1) as [|y r] eqn:Er.
      * apply (f_equal (@List.length _)) in Er. rewrite length_rev in Er.
        simpl in Er. lia.
      * assert (El1 : l1 = rev r ++ [y]).
        { rewrite <- (rev_involutive l1), Er. reflexivity. }
        assert (Hr : List.length (rev r) = j).
        { rewrite El1, length_app in Hl1. simpl in Hl1. lia. }
        rewrite E, El1, <- Hr. symmetry. apply nth_snoc.
  - rewrite (next_idx_down_leaf m l1 l2 x E). unfold fwd.
    destruct (S k <? List.length (leaves accepts m))%nat eqn:Hlt.
    + apply Nat.ltb_lt in Hlt. destruct l2 as [|y l2]; [simpl in Hn; lia|].
      simpl. f_equal. rewrite E at 1. rewrite <- Hl1. now rewrite nth_after.
    + apply Nat.ltb_ge in Hlt. destruct l2 as [|y l2]; [|simpl in Hn; lia].
      simpl. f_equal. rewrite first_item_hd.
      now destruct (leaves accepts m).
Qed.

Lemma pos_step_lt (upwards : bool) (n k : nat) :
  k < n -> pos_step upwards n k < n.
Proof.
  intro H. destruct upwards; simpl; unfold fwd, bwd.
  - destruct k; lia.
  - destruct (S k <? n)%nat eqn:E; [apply Nat.ltb_lt in E|]; lia.
Qed.

(** *** Many steps *)

Lemma iterate_next_pos (m : FilterModel) (upwards : bool) (j : nat) :
  forall k,
    k < List.length (leaves accepts m) ->
    iterate_next accepts m upwards j (nth k (leaves accepts m) Invalid) =
    Some (nth (iter_pos (pos_step upwards (List.length (leaves accepts m))) j k)
              (leaves accepts m) Invalid).
Proof.
  induction j as [|j IH]; intros k Hk; [reflexivity|].
  simpl. pose proof (next_idx_pos m upwards Hk) as Hs.
  destruct (_next_idx accepts m (nth k (leaves accepts m) Invalid) upwards)
    as [[idx effs]|]; [|discriminate].
  simpl in Hs. injection Hs as Hs. subst idx.
  apply IH. now apply pos_step_lt.
Qed.

Lemma iter_fwd (n j : nat) :
  forall k, k < n -> j <= n ->
    iter_pos (fwd n) j k = if (k + j <? n)%nat then k + j else k + j - n.
Proof.
  induction j as [|j IH]; intros k Hk Hj; simpl.
  - rewrite Nat.add_0_r. apply Nat.ltb_lt in Hk. now rewrite Hk.
  - unfold fwd at 2. destruct (S k <? n)%nat eqn:E.
    + apply Nat.ltb_lt in E. rewrite IH by lia.
      replace (S k + j) with (k + S j) by lia. reflexivity.
    + apply Nat.ltb_ge in E. rewrite IH by lia. simpl.
      assert (Hj' : (j <? n)%nat = true) by (apply Nat.ltb_lt; lia).
      assert (Hk' : (k + S j <? n)%nat = false) by (apply Nat.ltb_ge; lia).
      rewrite Hj', Hk'. lia.
Qed.

Lemma iter_bwd (n j : nat) :
  forall k, k < n -> j <= n ->
    iter_pos (bwd n) j k = if (j <=? k)%nat then k - j else n + k - j.
Proof.
  induction j as [|j IH]; intros k Hk Hj; simpl.
  - lia.
  - destruct k as [|k]; simpl bwd.
    + rewrite IH by lia.
      assert (Hj' : (j <=? n - 1)%nat = true) by (apply Nat.leb_le; lia).
      rewrite Hj'. lia.
    + rewrite IH by lia. destruct (j <=? k)%nat eqn:E; simpl; rewrite ?E; lia.
Qed.

Lemma iter_pos_round (upwards : bool) (n k : nat) :
  k < n -> iter_pos (pos_step upwards n) n k = k.
Proof.
  intro Hk. destruct upwards.
  - change (pos_step true n) with (bwd n). rewrite iter_bwd by lia.
    assert (E : (n <=? k)%nat = false) by (apply Nat.leb_gt; lia).
    rewrite E. lia.
  - change (pos_step false n) with (fwd n). rewrite iter_fwd by lia.
    assert (E : (k + n <? n)%nat = false) by (apply Nat.ltb_ge; lia).
    rewrite E. lia.
Qed.

(** *** What [_next_idx] returns *)

Lemma idx_eq_dec (a b : QModelIndex) : {a = b} + {a <> b}.
Proof. decide equality; apply Nat.eq_dec. Qed.

Lemma hd_leaves (m : FilterModel) :
  hd Invalid (leaves accepts m) = Invalid \/
  In (hd Invalid (leaves accepts m)) (leaves accepts m).
Proof. destruct (leaves accepts m); simpl; auto. Qed.

Lemma last_leaves (m : FilterModel) :
  last (leaves accepts m) Invalid = Invalid \/
  In (last (leaves accepts m) Invalid) (leaves accepts m).
Proof.
  destruct (leaves accepts m) as [|y l]; [left; reflexivity|right].
  destruct (exists_last (l := y :: l)) as [l' [z Ez]]; [discriminate|].
  rewrite Ez, last_last. apply in_or_app. right. left. reflexivity.
Qed.

Lemma filter_hd_leaf (m : FilterModel) (part : list QModelIndex)
    (y : QModelIndex) (l : list QModelIndex) :
  (forall z, In z part -> In z (viewItems accepts m)) ->
  filter is_leaf part = y :: l ->
  In y (leaves accepts m).
Proof.
  intros Hsub E. assert (Hy : In y (filter is_leaf part)) by (rewrite E; now left).
  apply filter_In in Hy. destruct Hy as [Hy Hl].
  apply filter_In. split; [now apply Hsub|assumption].
Qed.

(** The loop ends within the rounds [_next_idx] gives it, wherever it
    starts, at an item of the view or at the invalid index. *)
Lemma next_idx_loop_total (m : FilterModel) (upwards : bool) (x : QModelIndex) :
  exists idx effs,
    next_idx_loop accepts (S (List.length (viewItems accepts m))) m upwards x =
    Some (idx, effs) /\
    (idx = Invalid \/ In idx (leaves accepts m)).
Proof.
  destruct (in_dec idx_eq_dec x (viewItems accepts m)) as [Hin|Hout].
  - destruct (@In_NoDup_split _ x (viewItems_NoDup m) Hin)
      as [pre [post [E [Hpre Hpost]]]].
    assert (Hlen : List.length (viewItems accepts m) =
                   List.length pre + S (List.length post)).
    { rewrite E, length_app. reflexivity. }
    destruct upwards.
    + rewrite (next_idx_loop_up m pre post x E) by lia.
      destruct (filter is_leaf (rev pre)) as [|y l] eqn:Ef.
      * exists (last_item accepts m), []. split; [reflexivity|].
        rewrite last_item_last. apply last_leaves.
      * exists y, []. split; [reflexivity|right].
        apply (@filter_hd_leaf m (rev pre) y l); [|exact Ef].
        intros z Hz. rewrite E. apply in_or_app. left. now apply in_rev.
    + rewrite (next_idx_loop_down m post pre x E) by lia.
      destruct (filter is_leaf post) as [|y l] eqn:Ef.
      * eexists _, _. split; [reflexivity|].
        rewrite first_item_hd. apply hd_leaves.
      * exists y, []. split; [reflexivity|right].
        apply (@filter_hd_leaf m post y l); [|exact Ef].
        intros z Hz. rewrite E. apply in_or_app. right. now right.
  - simpl. unfold indexAbove, indexBelow.
    rewrite (@viewIndex_notin (viewItems accepts m) x Hout). destruct upwards; simpl.
    + exists (last_item accepts m), []. split; [reflexivity|].
      rewrite last_item_last. apply last_leaves.
    + eexists _, _. split; [reflexivity|].
      rewrite first_item_hd. apply hd_leaves.
Qed.

(** C8: whatever the model and the current index, [_next_idx] returns, and
    what it returns is the invalid index ("none") or an item of the view, an
    index whose parent is a category header; it is never a category
    header. *)
Theorem C8_next_idx_never_category (m : FilterModel) (current : QModelIndex)
    (upwards : bool) :
  exists idx effs,
    _next_idx accepts m current upwards = Some (idx, effs) /\
    (idx = Invalid \/
     (In idx (leaves accepts m) /\ isValid (parent idx) = true)) /\
    (forall c, idx <> CatIdx c).
Proof.
  assert (H : exists idx effs,
             _next_idx accepts m current upwards = Some (idx, effs) /\
             (idx = Invalid \/ In idx (leaves accepts m))).
  { unfold _next_idx. destruct (isValid current); simpl.
    - apply next_idx_loop_total.
    - exists (first_item accepts m), []. split; [reflexivity|].
      rewrite first_item_hd. apply hd_leaves. }
  destruct H as [idx [effs [E [Hi|Hl]]]]; exists idx, effs; split; auto.
  - subst idx. split; [now left|discriminate].
  - pose proof (leaves_is_leaf _ _ Hl) as Hleaf. split; [right; now split|].
    intros c Hc. subst idx. discriminate.
Qed.

(** C2, as amended: with no item selected, [_next_idx] returns the first
    item of the first category that has one, in either direction; in a
    model with an item this is the first item in traversal order. *)
Theorem C2_none_cursor_first_item (m : FilterModel) (upwards : bool) :
  leaves accepts m <> [] ->
  _next_idx accepts m Invalid upwards = Some (first_item accepts m, []) /\
  first_item accepts m = hd Invalid (leaves accepts m) /\
  In (first_item accepts m) (leaves accepts m).
Proof.
  intro Hne. split; [reflexivity|]. split; [apply first_item_hd|].
  rewrite first_item_hd. destruct (leaves accepts m); [congruence|now left].
Qed.

(** C7: from any item of the view, [item_count] steps of [_next_idx] in one
    direction lead back to that item; forwards the step from the last item
    goes to the first item of the first category that has one, backwards
    the step from the first item goes to the last item of the last category
    that has one. *)
Theorem C7_wraparound_closure (m : FilterModel) (start : QModelIndex)
    (upwards : bool) :
  In start (leaves accepts m) ->
  iterate_next accepts m upwards (item_count accepts m) start = Some start /\
  option_map fst
    (_next_idx accepts m (last (leaves accepts m) Invalid) false) =
  Some (first_item accepts m) /\
  option_map fst
    (_next_idx accepts m (hd Invalid (leaves accepts m)) true) =
  Some (last_item accepts m).
Proof.
  intro Hin. set (n := List.length (leaves accepts m)).
  assert (Hpos : 0 < n).
  { unfold n. destruct (leaves accepts m); [contradiction|simpl; lia]. }
  split; [|split].
  - destruct (In_nth _ _ Invalid Hin) as [k [Hk Ek]].
    rewrite item_count_leaves, <- Ek, iterate_next_pos by exact Hk.
    now rewrite iter_pos_round.
  - rewrite <- nth_last. fold n.
    rewrite (next_idx_pos m false (k := n - 1)) by (unfold n in *; lia).
    fold n. simpl. unfold fwd.
    assert (E : (S (n - 1) <? n)%nat = false) by (apply Nat.ltb_ge; lia).
    rewrite E, first_item_hd. now destruct (leaves accepts m).
  - replace (hd Invalid (leaves accepts m))
      with (nth 0 (leaves accepts m) Invalid)
      by now destruct (leaves accepts m).
    rewrite (next_idx_pos m true (k := 0)) by exact Hpos.
    fold n. simpl. rewrite last_item_last. now rewrite <- nth_last.
Qed.

End Navigator.

(** ** More on navigation *)

Section NavigatorSteps.

Variable accepts : string -> Item -> bool.

Lemma bwd_fwd (n k : nat) : k < n -> bwd n (fwd n k) = k.
Proof.
  intro H. unfold fwd, bwd. destruct (S k <? n)%nat eqn:E; [reflexivity|].
  apply Nat.ltb_ge in E. lia.
Qed.

Lemma fwd_bwd (n k : nat) : k < n -> fwd n (bwd n k) = k.
Proof.
  intro H. unfold fwd, bwd. destruct k as [|j].
  - assert (E : (S (n - 1) <? n)%nat = false) by (apply Nat.ltb_ge; lia).
    now rewrite E.
  - assert (E : (S j <? n)%nat = true) by (apply Nat.ltb_lt; lia).
    now rewrite E.
Qed.

Lemma last_snoc_any (l : list QModelIndex) (y d : QModelIndex) :
  last (l ++ [y]) d = y.
Proof. apply last_last. Qed.

(** X1: one step from an item: forwards to the item after it in the order of
    the view, or to the first item when it is the last; backwards to the
    item before it, or to the last item when it is the first. *)
Theorem next_idx_neighbour (m : FilterModel) (l1 l2 : list QModelIndex)
    (x : QModelIndex) :
  leaves accepts m = l1 ++ x :: l2 ->
  option_map fst (_next_idx accepts m x false) = Some (hd (hd x l1) l2) /\
  option_map fst (_next_idx accepts m x true) = Some (last l1 (last l2 x)).
Proof.
  intro E. split.
  - rewrite (next_idx_down_leaf accepts m l1 l2 x E).
    destruct l2 as [|y l2]; simpl; [|reflexivity].
    rewrite first_item_hd, E. now destruct l1.
  - rewrite (next_idx_up_leaf accepts m l1 l2 x E). simpl. f_equal.
    destruct (rev l1) as [|y r] eqn:Er.
    + assert (El : l1 = []).
      { rewrite <- (rev_involutive l1), Er. reflexivity. }
      subst l1. simpl. rewrite last_item_last, E. simpl.
      destruct l2 as [|z l2]; [reflexivity|].
      change (last (z :: l2) Invalid = last (z :: l2) x).
      destruct (exists_last (l := z :: l2)) as [l' [w Ew]]; [discriminate|].
      now rewrite Ew, !last_last.
    + assert (El : l1 = rev r ++ [y]).
      { rewrite <- (rev_involutive l1), Er. reflexivity. }
      rewrite El. now rewrite last_last.
Qed.

(** X2: A step forwards and a step backwards undo each other on the items of
    the view, also around the ends. *)
Theorem next_idx_there_and_back (m : FilterModel) (x : QModelIndex) :
  In x (leaves accepts m) ->
  (exists y,
     option_map fst (_next_idx accepts m x false) = Some y /\
     In y (leaves accepts m) /\
     option_map fst (_next_idx accepts m y true) = Some x) /\
  (exists y,
     option_map fst (_next_idx accepts m x true) = Some y /\
     In y (leaves accepts m) /\
     option_map fst (_next_idx accepts m y false) = Some x).
Proof.
  intro Hin. destruct (In_nth _ _ Invalid Hin) as [k [Hk Ek]]. subst x.
  set (n := List.length (leaves accepts m)) in *.
  split.
  - exists (nth (fwd n k) (leaves accepts m) Invalid).
    pose proof (pos_step_lt false Hk) as Hlt. simpl in Hlt.
    split; [exact (next_idx_pos accepts m false Hk)|].
    split; [now apply nth_In|].
    rewrite (next_idx_pos accepts m true Hlt). simpl. fold n.
    now rewrite bwd_fwd.
  - exists (nth (bwd n k) (leaves accepts m) Invalid).
    pose proof (pos_step_lt true Hk) as Hlt. simpl in Hlt.
    split; [exact (next_idx_pos accepts m true Hk)|].
    split; [now apply nth_In|].
    rewrite (next_idx_pos accepts m false Hlt). simpl. fold n.
    now rewrite fwd_bwd.
Qed.

(** X3: the view is scrolled only by the step forwards from the last item, and
    then to the header of the category of the first item. *)
Theorem next_idx_scrolls_on_wrap (m : FilterModel) (l1 l2 : list QModelIndex)
    (x : QModelIndex) :
  leaves accepts m = l1 ++ x :: l2 ->
  option_map snd (_next_idx accepts m x true) = Some [] /\
  option_map snd (_next_idx accepts m x false) =
  Some (match l2 with
        | [] => [ScrollTo (parent (first_item accepts m))]
        | _ :: _ => []
        end) /\
  exists c, parent (first_item accepts m) = CatIdx c.
Proof.
  intro E. split; [|split].
  - now rewrite (next_idx_up_leaf accepts m l1 l2 x E).
  - rewrite (next_idx_down_leaf accepts m l1 l2 x E). now destruct l2.
  - assert (Hf : In (first_item accepts m) (leaves accepts m)).
    { rewrite first_item_hd, E. destruct l1; simpl; auto. }
    apply leaves_is_leaf in Hf.
    destruct (first_item accepts m) as [|c|c r]; try discriminate.
    now exists c.
Qed.

(** X4: in a model without items [_next_idx] returns the invalid index,
    whatever the current index and the direction. *)
Theorem next_idx_empty_model (m : FilterModel) (current : QModelIndex)
    (upwards : bool) :
  item_count accepts m = 0 ->
  option_map fst (_next_idx accepts m current upwards) = Some Invalid.
Proof.
  intro H0. rewrite item_count_leaves in H0.
  assert (Hl : leaves accepts m = []).
  { destruct (leaves accepts m); [reflexivity|discriminate]. }
  unfold _next_idx. destruct (isValid current); cbv beta iota delta [negb].
  - destruct (next_idx_loop_total accepts m upwards current)
      as [idx [effs [E [Hi|Hi]]]]; rewrite E; simpl.
    + now subst idx.
    + rewrite Hl in Hi. contradiction.
  - simpl. now rewrite first_item_hd, Hl.
Qed.

(** Every item of the view has data, the text of the item. *)
Theorem leaves_have_data (m : FilterModel) (idx : QModelIndex) :
  In idx (leaves accepts m) ->
  exists c r its it,
    idx = ItemIdx c r /\
    nth_error (shown accepts m) c = Some its /\
    nth_error its r = Some it /\
    accepts (pattern m) it = true /\
    data accepts m idx = Some (text it).
Proof.
  unfold leaves, viewItems, data.
  assert (G : forall cats c0,
             In idx (filter is_leaf (view_rows c0 cats)) ->
             exists c r its it,
               idx = ItemIdx c r /\ c0 <= c /\
               nth_error cats (c - c0) = Some its /\
               nth_error its r = Some it).
  { induction cats as [|its rest IH]; intros c0 H; [contradiction|].
    rewrite leaves_rows in H. apply in_app_or in H. destruct H as [H|H].
    - apply in_map_iff in H. destruct H as [r [Hr Hs]]. apply in_seq in Hs.
      destruct (nth_error its r) as [it|] eqn:En.
      + exists c0, r, its, it. rewrite Nat.sub_diag. simpl. auto.
      + apply nth_error_None in En. lia.
    - destruct (IH (S c0) H) as [c [r [its' [it [E1 [E2 [E3 E4]]]]]]].
      exists c, r, its', it. repeat split; auto; [lia|].
      replace (c - c0) with (S (c - S c0)) by lia. exact E3. }
  intro H. destruct (G _ _ H) as [c [r [its [it [E1 [_ [E3 E4]]]]]]].
  rewrite Nat.sub_0_r in E3. exists c, r, its, it. subst idx.
  rewrite E3, E4. simpl. repeat split; auto.
  unfold shown in E3. rewrite nth_error_map in E3.
  destruct (nth_error (categories m) c) as [cat|]; [|discriminate].
  simpl in E3. injection E3 as E3. subst its.
  apply nth_error_In in E4. apply filter_In in E4. tauto.
Qed.

End NavigatorSteps.

(** ** The widget: guard, visibility and write-back *)

Section Widget.

Variable accepts : string -> Item -> bool.
Variable _get_new_completion : list string -> Z -> option ModelId.
Variable text_input_echo : string -> bool -> list (string * list string * Z).
Variable qt_rows_changed :
  FilterModel -> FilterModel -> QModelIndex -> QModelIndex -> QtReaction.

Local Abbreviation update :=
  (on_update_completion accepts _get_new_completion text_input_echo
     qt_rows_changed).
Local Abbreviation answers :=
  (deliver accepts _get_new_completion text_input_echo qt_rows_changed).
Local Abbreviation selection_changed :=
  (selectionChanged accepts _get_new_completion text_input_echo
     qt_rows_changed).
Local Abbreviation set_current :=
  (setCurrentIndex accepts _get_new_completion text_input_echo
     qt_rows_changed).
Local Abbreviation next_prev :=
  (_next_prev_item accepts _get_new_completion text_input_echo
     qt_rows_changed).
Local Abbreviation set_pat :=
  (set_pattern accepts text_input_echo qt_rows_changed).
Local Abbreviation run_call :=
  (dispatch accepts _get_new_completion text_input_echo qt_rows_changed).
Local Abbreviation reach :=
  (reachable accepts _get_new_completion text_input_echo qt_rows_changed).

(** Unfolds the plumbing of a method body. *)
Ltac run_body :=
  unfold bind, get, modify, ret, raise, tell, hide, show, set_model, as_slot;
  simpl.

(** Splits a run along the tests of the method. *)
Ltac split_run :=
  repeat match goal with
         | |- context [match ?x with _ => _ end] =>
             destruct x eqn:?; simpl
         end.

(** *** Lists of effects *)

Lemma bind_tell (A : Type) (e : Effect) (k : unit -> M A) (s : CompletionView) :
  bind (tell e) k s =
  mkRun (outcome (k tt s)) (final (k tt s)) (e :: effects (k tt s)).
Proof. reflexivity. Qed.

Lemma tell_all (effs : list Effect) (s : CompletionView) :
  fold_right (fun e k => bind (tell e) (fun _ => k)) (ret tt) effs s =
  mkRun (Return tt) s effs.
Proof.
  induction effs as [|e effs IH]; [reflexivity|].
  simpl. rewrite bind_tell, IH. reflexivity.
Qed.

Lemma filter_none (A : Type) (f : A -> bool) (l : list A) :
  (forall x, In x l -> f x = false) -> filter f l = [].
Proof.
  induction l as [|x l IH]; intro H; simpl; [reflexivity|].
  rewrite (H x (or_introl eq_refl)). apply IH. intros y Hy. apply H. now right.
Qed.

(** *** Rows that stay and rows that go *)

Lemma same_list_refl (A : Type) (same : A -> A -> bool) (l : list A) :
  (forall x, same x x = true) -> same_list same l l = true.
Proof.
  intro H. induction l as [|x l IH]; simpl; [reflexivity|].
  now rewrite H, IH.
Qed.

Lemma same_rows_refl (rows : list (list Item)) : same_rows rows rows = true.
Proof.
  apply same_list_refl. intro l. apply same_list_refl. intro it.
  unfold same_item. rewrite String.eqb_refl. simpl.
  apply same_list_refl. apply String.eqb_refl.
Qed.

Lemma two_in_list (A : Type) (a b : A) (l : list A) :
  In a l -> In b l -> a <> b -> 2 <= List.length l.
Proof.
  destruct l as [|x [|y l]]; simpl; intros Ha Hb Hne; try contradiction;
    [|lia].
  destruct Ha as [Ha|[]], Hb as [Hb|[]]. congruence.
Qed.

Lemma existsb_idx (x : QModelIndex) (l : list QModelIndex) :
  existsb (idx_eqb x) l = true -> In x l.
Proof.
  intro H. apply existsb_exists in H. destruct H as [y [Hy E]].
  apply idx_eqb_eq in E. now subst y.
Qed.

(** When Qt moves the selection to another row there are two items at
    least, and the row has data. *)
Lemma another_row_items (m : FilterModel) (current idx : QModelIndex) :
  another_row (leaves accepts m) current idx = true ->
  Nat.eqb (item_count accepts m) 1 = false /\
  isValid idx = true /\
  exists d, data accepts m idx = Some d.
Proof.
  unfold another_row. intro H.
  apply andb_true_iff in H. destruct H as [H Hne].
  apply andb_true_iff in H. destruct H as [Hc Hi].
  apply existsb_idx in Hc. apply existsb_idx in Hi.
  assert (Hd : current <> idx).
  { intro E. subst idx. now rewrite idx_eqb_refl in Hne. }
  split; [|split].
  - apply Nat.eqb_neq. rewrite item_count_leaves.
    pose proof (@two_in_list _ _ _ _ Hc Hi Hd). lia.
  - apply leaf_valid. now apply (leaves_is_leaf accepts m).
  - destruct (leaves_have_data accepts _ _ Hi)
      as [c [r [its [it [_ [_ [_ [_ E]]]]]]]].
    now exists (text it).
Qed.

(** *** What the command line sends back *)

Lemma deliver_in_outcome (h : string -> list string -> Z -> M unit)
    (echo : list (string * list string * Z)) :
  forall s, outcome (deliver_in h echo s) = Return tt.
Proof.
  induction echo as [|[[prefix parts] cursor_part] rest IH]; intro s;
    [reflexivity|].
  simpl. unfold bind, as_slot. simpl. apply IH.
Qed.

Lemma deliver_in_ignored (h : string -> list string -> Z -> M unit)
    (echo : list (string * list string * Z)) (s : CompletionView) :
  ignores_under_guard h ->
  _ignore_change s = true ->
  deliver_in h echo s = mkRun (Return tt) s [].
Proof.
  intros Hh H. induction echo as [|[[prefix parts] cursor_part] rest IH];
    [reflexivity|].
  destruct (Hh prefix parts cursor_part s H) as [E1 E2].
  simpl. unfold bind, as_slot. simpl. rewrite E1, E2, IH. reflexivity.
Qed.

(** *** The write-back *)

(** [selectionChanged] case by case, whatever handles the answers of the
    command line. *)
Lemma selection_changed_in_run (h : string -> list string -> Z -> M unit)
    (selected deselected : list QModelIndex) (s : CompletionView) :
  selectionChanged_in accepts text_input_echo h selected deselected s =
  match selected with
  | [] => mkRun (Return tt) s []
  | idx :: _ =>
      match _model s with
      | None => mkRun (Raise AttributeError) s []
      | Some m =>
          match data accepts (models s m) idx with
          | None => mkRun (Return tt) s []
          | Some d =>
              if Nat.eqb (item_count accepts (models s m)) 1
                 && completion_quick_complete (config s)
              then
                let r := deliver_in h (text_input_echo d true) s in
                mkRun (Return tt) (final r)
                      (ChangeCompletedPart d true :: effects r)
              else
                let r := deliver_in h (text_input_echo d false)
                           (set_ignore_change true s) in
                mkRun (Return tt) (set_ignore_change false (final r))
                      (ChangeCompletedPart d false :: effects r)
          end
      end
  end.
Proof.
  destruct selected as [|idx rest]; [reflexivity|].
  unfold selectionChanged_in, emit_change_completed_part_in. run_body.
  destruct (_model s) as [m|]; [|reflexivity]. simpl.
  destruct (data accepts (models s m) idx) as [d|]; [|reflexivity]. simpl.
  destruct (Nat.eqb (item_count accepts (models s m)) 1
            && completion_quick_complete (config s)); simpl.
  - now rewrite deliver_in_outcome.
  - rewrite deliver_in_outcome. simpl. now rewrite app_nil_r.
Qed.

(** The provisional write-back when the answers are ignored under the
    guard. *)
Lemma selection_changed_in_provisional
    (h : string -> list string -> Z -> M unit) (idx : QModelIndex)
    (rest deselected : list QModelIndex) (s : CompletionView) (m : ModelId)
    (d : string) :
  ignores_under_guard h ->
  _model s = Some m ->
  data accepts (models s m) idx = Some d ->
  Nat.eqb (item_count accepts (models s m)) 1
  && completion_quick_complete (config s) = false ->
  selectionChanged_in accepts text_input_echo h (idx :: rest) deselected s =
  mkRun (Return tt) (set_ignore_change false s) [ChangeCompletedPart d false].
Proof.
  intros Hh Hm Hd Hq. rewrite selection_changed_in_run, Hm, Hd, Hq.
  cbv zeta. now rewrite (deliver_in_ignored _ _ Hh) by reflexivity.
Qed.

(** Qt selecting another row: the text of the row is written back, as a
    preview, unless the row was selected already. *)
Lemma set_current_in_another (h : string -> list string -> Z -> M unit)
    (idx : QModelIndex) (s : CompletionView) (m : ModelId) (d : string) :
  ignores_under_guard h ->
  _model s = Some m ->
  another_row (leaves accepts (models s m)) (currentIndex s) idx = true ->
  data accepts (models s m) idx = Some d ->
  setCurrentIndex_in accepts text_input_echo h idx s =
  if idx_eqb (selectedRow s) idx then
    mkRun (Return tt) (set_selectedRow idx (set_currentIndex idx s)) []
  else
    mkRun (Return tt)
          (set_ignore_change false (set_selectedRow idx (set_currentIndex idx s)))
          [ChangeCompletedPart d false].
Proof.
  intros Hh Hm Ha Hd. destruct (another_row_items _ _ _ Ha) as [Hc [Hv _]].
  unfold setCurrentIndex_in. run_body.
  destruct (idx_eqb (selectedRow s) idx); simpl; [reflexivity|].
  rewrite Hv.
  rewrite (@selection_changed_in_provisional h idx [] _ _ m d Hh);
    simpl; auto.
  now rewrite Hc.
Qed.

(** *** Setting the pattern *)

Lemma set_pattern_in_no_model (h : string -> list string -> Z -> M unit)
    (pat : string) (s : CompletionView) :
  _model s = None ->
  set_pattern_in accepts text_input_echo qt_rows_changed h pat s =
  mkRun (Raise AttributeError) s [].
Proof. intro H. unfold set_pattern_in. run_body. now rewrite H. Qed.

Lemma set_pattern_in_same_rows (h : string -> list string -> Z -> M unit)
    (pat : string) (s : CompletionView) (m : ModelId) :
  _model s = Some m ->
  same_rows (shown accepts (models s m))
            (shown accepts (mkFilterModel (categories (models s m)) pat)) = true ->
  set_pattern_in accepts text_input_echo qt_rows_changed h pat s =
  mkRun (Return tt) (set_models (assign_pattern m pat (models s)) s)
        [SetPattern m pat].
Proof.
  intros Hm Hs. unfold set_pattern_in. run_body. rewrite Hm. simpl.
  now rewrite Hs.
Qed.

(** What setting the pattern does and leaves alone, whatever Qt makes of
    the new rows: what is written back meanwhile is a preview, and the
    guard is down afterwards. *)
Lemma set_pattern_in_facts (h : string -> list string -> Z -> M unit)
    (pat : string) (s : CompletionView) (m : ModelId) :
  ignores_under_guard h ->
  _model s = Some m ->
  let r := set_pattern_in accepts text_input_echo qt_rows_changed h pat s in
  outcome r = Return tt /\
  config (final r) = config s /\
  _enabled (final r) = _enabled s /\
  _model (final r) = Some m /\
  _lastmodel (final r) = _lastmodel s /\
  visible (final r) = visible s /\
  models (final r) = assign_pattern m pat (models s) /\
  (_ignore_change s = false -> _ignore_change (final r) = false) /\
  exists rest,
    effects r = SetPattern m pat :: rest /\
    forall e, In e rest ->
              e = ResizeCompletion \/ exists d, e = ChangeCompletedPart d false.
Proof.
  intros Hh Hm. cbv zeta. unfold set_pattern_in, bind, get, modify, tell, ret.
  cbn. rewrite Hm. cbn.
  destruct (same_rows _ _); cbn.
  { repeat split; auto. exists []. split; [reflexivity|]. intros e []. }
  set (qt := qt_rows_changed _ _ _ _).
  assert (Hrep : forall e,
             In e (repeat ResizeCompletion (rows_signals qt)) ->
             e = ResizeCompletion \/ exists d, e = ChangeCompletedPart d false).
  { intros e He. left. now apply repeat_spec in He. }
  destruct (select_next qt) as [idx|]; cbn.
  - destruct (another_row (leaves accepts (models s m)) (currentIndex s) idx)
      eqn:Ea; cbn.
    + destruct (another_row_items _ _ _ Ea) as [_ [_ [d Hd]]].
      unfold as_slot.
      rewrite (@set_current_in_another h idx s m d Hh Hm Ea Hd).
      destruct (idx_eqb (selectedRow s) idx); simpl;
        unfold bind; rewrite tell_all; simpl; rewrite ?app_nil_r.
      * repeat split; auto. eexists. split; [reflexivity|]. exact Hrep.
      * repeat split; auto. eexists. split; [reflexivity|].
        intros e [He|He]; [right; now exists d|now apply Hrep].
    + unfold bind. rewrite tell_all. simpl. rewrite ?app_nil_r.
      repeat split; auto. eexists. split; [reflexivity|]. exact Hrep.
  - unfold bind. rewrite tell_all. simpl. rewrite ?app_nil_r.
    repeat split; auto. eexists. split; [reflexivity|]. exact Hrep.
Qed.

(** Setting the pattern does the same whatever handler is behind the
    command line, as long as that handler honours the guard. *)
Lemma set_pattern_in_ext (h h' : string -> list string -> Z -> M unit)
    (pat : string) (s : CompletionView) :
  ignores_under_guard h ->
  ignores_under_guard h' ->
  set_pattern_in accepts text_input_echo qt_rows_changed h pat s =
  set_pattern_in accepts text_input_echo qt_rows_changed h' pat s.
Proof.
  intros Hh Hh'. unfold set_pattern_in, bind, get, modify, tell, ret. cbn.
  destruct (_model s) as [m|] eqn:Hm; cbn; [|reflexivity].
  destruct (same_rows _ _); cbn; [reflexivity|].
  destruct (select_next _) as [idx|]; cbn; [|reflexivity].
  destruct (another_row (leaves accepts (models s m)) (currentIndex s) idx)
    eqn:Ea; cbn; [|reflexivity].
  destruct (another_row_items _ _ _ Ea) as [_ [_ [d Hd]]].
  unfold as_slot.
  rewrite (@set_current_in_another h idx s m d Hh Hm Ea Hd).
  rewrite (@set_current_in_another h' idx s m d Hh' Hm Ea Hd).
  reflexivity.
Qed.

(** *** The update handler under the guard *)

Lemma returns_at_once_ignores : ignores_under_guard returns_at_once.
Proof. intros prefix parts cursor_part s _. now split. Qed.

Lemma on_update_ignored (prefix : string) (parts : list string)
    (cursor_part : Z) (s : CompletionView) :
  _ignore_change s = true ->
  update prefix parts cursor_part s = mkRun (Return tt) s [].
Proof.
  intro H. unfold on_update_completion, on_update_completion_in. run_body.
  now rewrite H.
Qed.

Lemma on_update_ignores : ignores_under_guard update.
Proof.
  intros prefix parts cursor_part s H. now rewrite on_update_ignored.
Qed.

Lemma deliver_ignored (echo : list (string * list string * Z))
    (s : CompletionView) :
  _ignore_change s = true ->
  answers echo s = mkRun (Return tt) s [].
Proof. apply deliver_in_ignored. exact on_update_ignores. Qed.

(** *** The update handler, step by step *)

(** An update that is no command, and one the completer has no model
    for. *)
Lemma on_update_no_source_run (prefix : string) (parts : list string)
    (cursor_part : Z) (s : CompletionView) :
  _ignore_change s = false ->
  (String.eqb prefix ":" = false ->
   update prefix parts cursor_part s =
   mkRun (Return tt) (set_visible false s) [Hide]) /\
  (String.eqb prefix ":" = true ->
   _get_new_completion parts cursor_part = None ->
   update prefix parts cursor_part s =
   match _lastmodel s with
   | None => mkRun (Return tt) s []
   | Some _ =>
       mkRun (Return tt) (set_visible false (set_lastmodel None s)) [Hide]
   end).
Proof.
  intro Hflag. unfold on_update_completion, on_update_completion_in, model_eqb.
  run_body. rewrite Hflag. split.
  - intro Hp. now rewrite Hp.
  - intros Hp Hget. rewrite Hp, Hget. simpl. now destruct (_lastmodel s).
Qed.

(** An update the completer has a model for: the model is switched when it
    is not the last one, the pattern is taken and set, and the view is
    shown or hidden by the number of items that pass. *)
Lemma on_update_run (parts : list string) (cursor_part : Z) (m : ModelId)
    (s : CompletionView) :
  _ignore_change s = false ->
  _get_new_completion parts cursor_part = Some m ->
  let switch := negb (model_eqb (Some m) (_lastmodel s)) in
  let s1 := if switch then final (set_model m (set_lastmodel (Some m) s))
            else s in
  let e1 := if switch then [SetModel m; ResizeCompletion] else [] in
  update ":" parts cursor_part s =
  match (match parts with
         | [] => Some ""
         | _ :: _ => py_getitem parts cursor_part
         end) with
  | None => mkRun (Raise IndexError) s1 e1
  | Some pat =>
      match _model s1 with
      | None => mkRun (Raise AttributeError) s1 e1
      | Some m0 =>
          let p := set_pat pat s1 in
          if Nat.eqb (item_count accepts (models (final p) m0)) 0 then
            mkRun (Return tt) (set_visible false (final p))
                  (e1 ++ effects p ++ [Hide])
          else if _enabled (final p) then
            mkRun (Return tt) (set_visible true (final p))
                  (e1 ++ effects p ++ [MarkAllItems m0 pat; Show])
          else
            mkRun (Return tt) (final p) (e1 ++ effects p ++ [MarkAllItems m0 pat])
      end
  end.
Proof.
  intros Hflag Hget. cbv zeta.
  unfold on_update_completion, on_update_completion_in, set_pattern.
  assert (Hsome : forall pat s1 m0,
             _model s1 = Some m0 ->
             outcome (set_pattern_in accepts text_input_echo qt_rows_changed
                        returns_at_once pat s1) = Return tt /\
             _model (final (set_pattern_in accepts text_input_echo
                              qt_rows_changed returns_at_once pat s1)) =
             Some m0).
  { intros pat s1 m0 E.
    destruct (@set_pattern_in_facts returns_at_once pat s1 m0
                returns_at_once_ignores E) as [Ho [_ [_ [Em' _]]]].
    now split. }
  assert (Hnone : forall pat s1,
             _model s1 = None ->
             set_pattern_in accepts text_input_echo qt_rows_changed
               returns_at_once pat s1 = mkRun (Raise AttributeError) s1 []).
  { intros pat s1 E. now apply set_pattern_in_no_model. }
  revert Hsome Hnone.
  generalize (set_pattern_in accepts text_input_echo qt_rows_changed
                returns_at_once).
  intros sp Hsome Hnone.
  assert (Htail : forall pat s1 e1,
    (let r := bind (sp pat)
                (fun _ => bind get (fun self =>
                   match _model self with
                   | None => raise AttributeError
                   | Some m0 =>
                       if Nat.eqb (item_count accepts (models self m0)) 0
                       then hide
                       else bind (tell (MarkAllItems m0 pat))
                              (fun _ => if _enabled self then show else ret tt)
                   end)) s1 in
     mkRun (outcome r) (final r) (e1 ++ effects r)) =
    match _model s1 with
    | None => mkRun (Raise AttributeError) s1 e1
    | Some m0 =>
        let p := sp pat s1 in
        if Nat.eqb (item_count accepts (models (final p) m0)) 0 then
          mkRun (Return tt) (set_visible false (final p))
                (e1 ++ effects p ++ [Hide])
        else if _enabled (final p) then
          mkRun (Return tt) (set_visible true (final p))
                (e1 ++ effects p ++ [MarkAllItems m0 pat; Show])
        else
          mkRun (Return tt) (final p) (e1 ++ effects p ++ [MarkAllItems m0 pat])
    end).
  { intros pat s1 e1. cbv zeta. run_body.
    destruct (_model s1) as [m0|] eqn:Em.
    - destruct (Hsome pat s1 m0 Em) as [Ho Em']. rewrite Ho. simpl.
      rewrite Em'. simpl.
      destruct (Nat.eqb (item_count accepts (models (final (sp pat s1)) m0)) 0);
        simpl; [reflexivity|].
      destruct (_enabled (final (sp pat s1))); reflexivity.
    - rewrite (Hnone pat s1 Em). simpl. now rewrite app_nil_r. }
  destruct (_lastmodel s) as [last|] eqn:El; cbn [model_eqb].
  - destruct (Nat.eqb m last) eqn:Eml; cbn [negb].
    + destruct parts as [|p0 parts'];
        [|destruct (py_getitem (p0 :: parts') cursor_part) as [pat|] eqn:Ep].
      * etransitivity; [|exact (Htail "" s [])]. run_body.
        rewrite Hflag, Hget, El. simpl. rewrite ?Eml. reflexivity.
      * etransitivity; [|exact (Htail pat s [])]. run_body.
        rewrite Hflag, Hget, El. simpl. rewrite ?Eml, ?Ep. reflexivity.
      * run_body. rewrite Hflag, Hget, El. simpl. rewrite ?Eml, ?Ep.
        reflexivity.
    + destruct parts as [|p0 parts'];
        [|destruct (py_getitem (p0 :: parts') cursor_part) as [pat|] eqn:Ep].
      * etransitivity;
          [|exact (Htail "" (final (set_model m (set_lastmodel (Some m) s)))
                     [SetModel m; ResizeCompletion])].
        run_body. rewrite Hflag, Hget, El. simpl. rewrite ?Eml.
        simpl. run_body.
        simpl. run_body.
      destruct (model_eqb (_model s) (Some m)); reflexivity.
      * etransitivity;
          [|exact (Htail pat (final (set_model m (set_lastmodel (Some m) s)))
                     [SetModel m; ResizeCompletion])].
        run_body. rewrite Hflag, Hget, El. simpl. rewrite ?Eml, ?Ep.
        simpl. run_body.
        simpl. run_body.
      destruct (model_eqb (_model s) (Some m)); reflexivity.
      * run_body. rewrite Hflag, Hget, El. simpl. rewrite ?Eml, ?Ep.
        simpl. run_body.
        simpl. run_body.
      destruct (model_eqb (_model s) (Some m)); reflexivity.
  - cbn [negb].
    destruct parts as [|p0 parts'];
      [|destruct (py_getitem (p0 :: parts') cursor_part) as [pat|] eqn:Ep].
    + etransitivity;
        [|exact (Htail "" (final (set_model m (set_lastmodel (Some m) s)))
                   [SetModel m; ResizeCompletion])].
      run_body. rewrite Hflag, Hget, El. simpl.
      simpl. run_body.
      destruct (model_eqb (_model s) (Some m)); reflexivity.
    + etransitivity;
        [|exact (Htail pat (final (set_model m (set_lastmodel (Some m) s)))
                   [SetModel m; ResizeCompletion])].
      run_body. rewrite Hflag, Hget, El. simpl. rewrite ?Ep.
      simpl. run_body.
      destruct (model_eqb (_model s) (Some m)); reflexivity.
    + run_body. rewrite Hflag, Hget, El. simpl. rewrite ?Ep.
      simpl. run_body.
      destruct (model_eqb (_model s) (Some m)); reflexivity.
Qed.

Lemma model_eqb_some (m : ModelId) (last : option ModelId) :
  model_eqb (Some m) last = true <-> last = Some m.
Proof.
  destruct last as [l|]; simpl; [|split; discriminate].
  rewrite Nat.eqb_eq. split; congruence.
Qed.

(** The view after [set_model], called as the update handler calls it. *)
Lemma switched_fields (m : ModelId) (s : CompletionView) :
  let s1 := final (set_model m (set_lastmodel (Some m) s)) in
  _model s1 = Some m /\ _lastmodel s1 = Some m /\ config s1 = config s /\
  _enabled s1 = _enabled s /\ visible s1 = visible s /\
  models s1 = models s /\ _ignore_change s1 = _ignore_change s /\
  effects (set_model m (set_lastmodel (Some m) s)) =
  [SetModel m; ResizeCompletion].
Proof.
  cbv zeta. run_body. run_body.
  destruct (model_eqb (_model s) (Some m)); repeat split.
Qed.

Lemma set_pattern_facts (pat : string) (s : CompletionView) (m : ModelId) :
  _model s = Some m ->
  let r := set_pat pat s in
  outcome r = Return tt /\
  config (final r) = config s /\
  _enabled (final r) = _enabled s /\
  _model (final r) = Some m /\
  _lastmodel (final r) = _lastmodel s /\
  visible (final r) = visible s /\
  models (final r) = assign_pattern m pat (models s) /\
  (_ignore_change s = false -> _ignore_change (final r) = false) /\
  exists rest,
    effects r = SetPattern m pat :: rest /\
    forall e, In e rest ->
              e = ResizeCompletion \/ exists d, e = ChangeCompletedPart d false.
Proof.
  intro Hm. apply set_pattern_in_facts; [exact returns_at_once_ignores|exact Hm].
Qed.

(** The anatomy of an update the completer has a model for. *)
Lemma on_update_anatomy (parts : list string) (cursor_part : Z) (m : ModelId)
    (s : CompletionView) :
  _ignore_change s = false ->
  _get_new_completion parts cursor_part = Some m ->
  let r := update ":" parts cursor_part s in
  exists s1 e1,
    ((_lastmodel s = Some m /\ s1 = s /\ e1 = []) \/
     (_lastmodel s <> Some m /\ _model s1 = Some m /\
      e1 = [SetModel m; ResizeCompletion])) /\
    e1 = (if model_eqb (Some m) (_lastmodel s) then []
          else [SetModel m; ResizeCompletion]) /\
    _lastmodel s1 = Some m /\ config s1 = config s /\
    _enabled s1 = _enabled s /\ visible s1 = visible s /\
    models s1 = models s /\ _ignore_change s1 = false /\
    match (match parts with
           | [] => Some ""
           | _ :: _ => py_getitem parts cursor_part
           end) with
    | None => r = mkRun (Raise IndexError) s1 e1
    | Some pat =>
        match _model s1 with
        | None => r = mkRun (Raise AttributeError) s1 e1
        | Some m0 =>
            let cnt :=
              item_count accepts (mkFilterModel (categories (models s m0)) pat) in
            outcome r = Return tt /\
            _model (final r) = Some m0 /\
            _lastmodel (final r) = Some m /\
            models (final r) = assign_pattern m0 pat (models s) /\
            config (final r) = config s /\
            _enabled (final r) = _enabled s /\
            _ignore_change (final r) = false /\
            visible (final r) =
            (if Nat.eqb cnt 0 then false else _enabled s || visible s) /\
            exists rest,
              effects r =
              e1 ++ SetPattern m0 pat :: rest ++
              (if Nat.eqb cnt 0 then [Hide]
               else MarkAllItems m0 pat ::
                    (if _enabled s then [Show] else [])) /\
              forall e, In e rest ->
                        e = ResizeCompletion \/
                        exists d, e = ChangeCompletedPart d false
        end
    end.
Proof.
  intros Hflag Hget. cbv zeta. rewrite (@on_update_run parts cursor_part m s Hflag Hget).
  cbv zeta.
  set (s1 := if negb (model_eqb (Some m) (_lastmodel s))
             then final (set_model m (set_lastmodel (Some m) s)) else s).
  set (e1 := if negb (model_eqb (Some m) (_lastmodel s))
             then [SetModel m; ResizeCompletion] else []).
  exists s1, e1.
  destruct (switched_fields m s) as [F1 [F2 [F3 [F4 [F5 [F6 [F7 _]]]]]]].
  assert (Hs1 : ((_lastmodel s = Some m /\ s1 = s /\ e1 = []) \/
                 (_lastmodel s <> Some m /\ _model s1 = Some m /\
                  e1 = [SetModel m; ResizeCompletion])) /\
                e1 = (if model_eqb (Some m) (_lastmodel s) then []
                      else [SetModel m; ResizeCompletion]) /\
                _lastmodel s1 = Some m /\ config s1 = config s /\
                _enabled s1 = _enabled s /\ visible s1 = visible s /\
                models s1 = models s /\ _ignore_change s1 = false).
  { unfold s1, e1.
    destruct (model_eqb (Some m) (_lastmodel s)) eqn:E; cbn [negb].
    - apply model_eqb_some in E. repeat split; auto.
    - assert (Hne : _lastmodel s <> Some m).
      { intro H. apply model_eqb_some in H. congruence. }
      repeat split; auto. congruence. }
  destruct Hs1 as [H1 [H2 [H3 [H4 [H5 [H6 [H7 H8]]]]]]].
  repeat (split; [assumption|]).
  destruct (match parts with
            | [] => Some ""
            | _ :: _ => py_getitem parts cursor_part
            end) as [pat|]; [|reflexivity].
  destruct (_model s1) as [m0|] eqn:Em0; [|reflexivity].
  destruct (@set_pattern_facts pat s1 m0 Em0)
    as [Po [Pc [Pe [Pm [Pl [Pv [Pmod [Pf [rest [Peff Prest]]]]]]]]]].
  rewrite Pe, H5, Pmod, H7.
  assert (Ecnt : item_count accepts (assign_pattern m0 pat (models s) m0) =
                 item_count accepts
                   (mkFilterModel (categories (models s m0)) pat)).
  { unfold assign_pattern. now rewrite Nat.eqb_refl. }
  rewrite Ecnt.
  destruct (Nat.eqb (item_count accepts
                       (mkFilterModel (categories (models s m0)) pat)) 0).
  - cbn [outcome final effects].
    repeat match goal with |- _ /\ _ => split end;
      cbn [set_visible _lastmodel _model models config _enabled
           _ignore_change visible orb]; try congruence; auto.
    exists rest. split; [now rewrite Peff|exact Prest].
  - destruct (_enabled s) eqn:Een; cbn [outcome final effects].
    + repeat match goal with |- _ /\ _ => split end;
        cbn [set_visible _lastmodel _model models config _enabled
             _ignore_change visible orb]; try congruence; auto.
      exists rest. split; [now rewrite Peff|exact Prest].
    + repeat match goal with |- _ /\ _ => split end;
        cbn [set_visible _lastmodel _model models config _enabled
             _ignore_change visible orb]; try congruence; auto.
      exists rest. split; [now rewrite Peff|exact Prest].
Qed.

(** The update handler leaves the guard as it finds it. *)
Lemma on_update_flag (prefix : string) (parts : list string)
    (cursor_part : Z) (s : CompletionView) :
  _ignore_change (final (update prefix parts cursor_part s)) = _ignore_change s.
Proof.
  destruct (_ignore_change s) eqn:Hflag; [now rewrite on_update_ignored|].
  destruct (@on_update_no_source_run prefix parts cursor_part s Hflag)
    as [N1 N2].
  destruct (String.eqb prefix ":") eqn:Ep; [|now rewrite N1].
  destruct (_get_new_completion parts cursor_part) as [m|] eqn:Hget.
  - apply String.eqb_eq in Ep. subst prefix.
    destruct (@on_update_anatomy parts cursor_part m s Hflag Hget)
      as [s1 [e1 [_ [_ [_ [_ [_ [_ [_ [F H]]]]]]]]]].
    destruct (match parts with
              | [] => Some ""
              | _ :: _ => py_getitem parts cursor_part
              end) as [pat|]; [|now rewrite H].
    destruct (_model s1) as [m0|]; [|now rewrite H].
    cbv zeta in H. destruct H as [_ [_ [_ [_ [_ [_ [Hf _]]]]]]]. exact Hf.
  - rewrite N2 by auto. now destruct (_lastmodel s).
Qed.

Lemma on_update_consistent (prefix : string) (parts : list string)
    (cursor_part : Z) (s : CompletionView) :
  consistent s -> consistent (final (update prefix parts cursor_part s)).
Proof.
  intros [Hv Hm].
  destruct (_ignore_change s) eqn:Hflag;
    [rewrite on_update_ignored by exact Hflag; now split|].
  destruct (@on_update_no_source_run prefix parts cursor_part s Hflag)
    as [N1 N2].
  destruct (String.eqb prefix ":") eqn:Ep;
    [|rewrite N1 by reflexivity; split; simpl; [discriminate|exact Hm]].
  destruct (_get_new_completion parts cursor_part) as [m|] eqn:Hget.
  - apply String.eqb_eq in Ep. subst prefix.
    destruct (@on_update_anatomy parts cursor_part m s Hflag Hget)
      as [s1 [e1 [Hsw [_ [Hl [_ [_ [Hvis [_ [_ H]]]]]]]]]].
    assert (Hm1 : _model s1 = Some m).
    { destruct Hsw as [[El [E1 _]]|[_ [E1 _]]]; [|exact E1].
      subst s1. now apply Hm. }
    destruct (match parts with
              | [] => Some ""
              | _ :: _ => py_getitem parts cursor_part
              end) as [pat|].
    + rewrite Hm1 in H. cbv zeta in H.
      destruct H as [_ [Em [El' _]]]. split.
      * intros _. congruence.
      * intros id E. congruence.
    + rewrite H. cbn [final]. split.
      * intros _. congruence.
      * intros id E. congruence.
  - rewrite N2 by auto. destruct (_lastmodel s) eqn:El; cbn [final].
    + split; simpl; [discriminate|discriminate].
    + unfold consistent. rewrite El. now split.
Qed.

(** *** What the command line sends back *)

Lemma deliver_outcome (echo : list (string * list string * Z)) :
  forall s, outcome (answers echo s) = Return tt.
Proof. apply deliver_in_outcome. Qed.

Lemma deliver_flag (echo : list (string * list string * Z)) :
  forall s, _ignore_change (final (answers echo s)) = _ignore_change s.
Proof.
  unfold deliver.
  induction echo as [|[[prefix parts] cursor_part] rest IH]; intro s;
    [reflexivity|].
  simpl. unfold bind, as_slot. simpl. rewrite IH. apply on_update_flag.
Qed.

Lemma deliver_consistent (echo : list (string * list string * Z)) :
  forall s, consistent s -> consistent (final (answers echo s)).
Proof.
  unfold deliver.
  induction echo as [|[[prefix parts] cursor_part] rest IH]; intros s H;
    [exact H|].
  simpl. unfold bind, as_slot. simpl. apply IH. now apply on_update_consistent.
Qed.

(** *** The write-back *)

(** [selectionChanged] case by case. *)
Lemma selection_changed_run (selected deselected : list QModelIndex)
    (s : CompletionView) :
  selection_changed selected deselected s =
  match selected with
  | [] => mkRun (Return tt) s []
  | idx :: _ =>
      match _model s with
      | None => mkRun (Raise AttributeError) s []
      | Some m =>
          match data accepts (models s m) idx with
          | None => mkRun (Return tt) s []
          | Some d =>
              if Nat.eqb (item_count accepts (models s m)) 1
                 && completion_quick_complete (config s)
              then
                let r := answers (text_input_echo d true) s in
                mkRun (Return tt) (final r)
                      (ChangeCompletedPart d true :: effects r)
              else
                mkRun (Return tt) (set_ignore_change false s)
                      [ChangeCompletedPart d false]
          end
      end
  end.
Proof.
  unfold selectionChanged. rewrite selection_changed_in_run.
  destruct selected as [|idx rest]; [reflexivity|].
  destruct (_model s) as [m|]; [|reflexivity].
  destruct (data accepts (models s m) idx) as [d|]; [|reflexivity].
  destruct (Nat.eqb (item_count accepts (models s m)) 1
            && completion_quick_complete (config s)); [reflexivity|].
  cbv zeta. fold answers.
  now rewrite deliver_ignored by reflexivity.
Qed.

Lemma consistent_fields (s s' : CompletionView) :
  visible s' = visible s ->
  _lastmodel s' = _lastmodel s ->
  _model s' = _model s ->
  consistent s -> consistent s'.
Proof.
  unfold consistent. intros Hv Hl Hm [H1 H2]. rewrite Hv, Hl, Hm. now split.
Qed.

Lemma selection_changed_flag (selected deselected : list QModelIndex)
    (s : CompletionView) :
  _ignore_change s = false ->
  _ignore_change (final (selection_changed selected deselected s)) = false.
Proof.
  intro H. rewrite selection_changed_run.
  destruct selected as [|idx rest]; [exact H|].
  destruct (_model s) as [m|]; [|exact H].
  destruct (data accepts (models s m) idx) as [d|]; [|exact H].
  destruct (Nat.eqb (item_count accepts (models s m)) 1
            && completion_quick_complete (config s)); simpl; [|reflexivity].
  now rewrite deliver_flag.
Qed.

Lemma selection_changed_consistent (selected deselected : list QModelIndex)
    (s : CompletionView) :
  consistent s ->
  consistent (final (selection_changed selected deselected s)).
Proof.
  intro H. rewrite selection_changed_run.
  destruct selected as [|idx rest]; [exact H|].
  destruct (_model s) as [m|]; [|exact H].
  destruct (data accepts (models s m) idx) as [d|]; [|exact H].
  destruct (Nat.eqb (item_count accepts (models s m)) 1
            && completion_quick_complete (config s)); simpl.
  - now apply deliver_consistent.
  - now apply (@consistent_fields s).
Qed.

(** *** The commands and the other slots *)

Lemma set_current_run (idx : QModelIndex) (s : CompletionView) :
  set_current idx s =
  if idx_eqb (selectedRow s) idx then
    mkRun (Return tt) (set_selectedRow idx (set_currentIndex idx s)) []
  else
    selection_changed (if isValid idx then [idx] else [])
      (if isValid (selectedRow s) then [selectedRow s] else [])
      (set_selectedRow idx (set_currentIndex idx s)).
Proof.
  unfold setCurrentIndex, setCurrentIndex_in, selectionChanged. run_body.
  destruct (idx_eqb (selectedRow s) idx); [reflexivity|].
  now destruct (selectionChanged_in _ _ _ _ _ _).
Qed.

Lemma setCurrentIndex_flag (idx : QModelIndex) (s : CompletionView) :
  _ignore_change s = false ->
  _ignore_change (final (set_current idx s)) = false.
Proof.
  intro H. rewrite set_current_run.
  destruct (idx_eqb (selectedRow s) idx); simpl; [exact H|].
  now apply selection_changed_flag.
Qed.

Lemma setCurrentIndex_consistent (idx : QModelIndex) (s : CompletionView) :
  consistent s -> consistent (final (set_current idx s)).
Proof.
  intro H. rewrite set_current_run.
  destruct (idx_eqb (selectedRow s) idx); simpl;
    [now apply (@consistent_fields s)|].
  apply selection_changed_consistent. now apply (@consistent_fields s).
Qed.

(** [_next_prev_item] case by case. *)
Lemma next_prev_item_run (prev : bool) (s : CompletionView) :
  next_prev prev s =
  if negb (visible s) then mkRun (Return tt) s []
  else
    match _model s with
    | None => mkRun (Raise AttributeError) s []
    | Some m =>
        match _next_idx accepts (models s m) (currentIndex s) prev with
        | None => mkRun (Raise LoopExhausted) s []
        | Some (idx, scrolls) =>
            let r := set_current idx s in
            mkRun (outcome r) (final r) (scrolls ++ effects r)
        end
    end.
Proof.
  unfold _next_prev_item. run_body.
  destruct (visible s); simpl; [|reflexivity].
  destruct (_model s) as [m|]; simpl; [|reflexivity].
  destruct (_next_idx accepts (models s m) (currentIndex s) prev)
    as [[idx scrolls]|]; simpl; [|reflexivity].
  unfold bind. now rewrite tell_all.
Qed.

Lemma next_prev_item_flag (prev : bool) (s : CompletionView) :
  _ignore_change s = false ->
  _ignore_change (final (next_prev prev s)) = false.
Proof.
  intro H. rewrite next_prev_item_run.
  destruct (visible s); simpl; [|exact H].
  destruct (_model s) as [m|]; simpl; [|exact H].
  destruct (_next_idx accepts (models s m) (currentIndex s) prev)
    as [[idx scrolls]|]; simpl; [|exact H].
  now apply setCurrentIndex_flag.
Qed.

Lemma next_prev_item_consistent (prev : bool) (s : CompletionView) :
  consistent s -> consistent (final (next_prev prev s)).
Proof.
  intro H. rewrite next_prev_item_run.
  destruct (visible s); simpl; [|exact H].
  destruct (_model s) as [m|]; simpl; [|exact H].
  destruct (_next_idx accepts (models s m) (currentIndex s) prev)
    as [[idx scrolls]|]; simpl; [|exact H].
  now apply setCurrentIndex_consistent.
Qed.

(** [on_clear_completion_selection] case by case. *)
Lemma on_clear_run (s : CompletionView) :
  on_clear_completion_selection accepts _get_new_completion text_input_echo
    qt_rows_changed s =
  match _model s with
  | None => mkRun (Return tt) s []
  | Some _ =>
      mkRun (Return tt) (set_currentIndex Invalid (set_selectedRow Invalid s)) []
  end.
Proof.
  unfold on_clear_completion_selection. run_body.
  destruct (_model s); simpl; [|reflexivity].
  destruct (isValid (selectedRow s)); simpl; [|reflexivity].
  reflexivity.
Qed.

Lemma dispatch_flag (c : Call) (s : CompletionView) :
  _ignore_change s = false ->
  _ignore_change (final (run_call c s)) = false.
Proof.
  intro H. destruct c; unfold dispatch, completion_item_next, completion_item_prev;
    cbv beta iota.
  - now rewrite on_update_flag.
  - now apply selection_changed_flag.
  - now apply next_prev_item_flag.
  - now apply next_prev_item_flag.
  - rewrite on_clear_run. destruct (_model s); exact H.
  - unfold on_config_changed. run_body. split_run; exact H.
  - exact H.
Qed.

Lemma dispatch_consistent (c : Call) (s : CompletionView) :
  consistent s -> consistent (final (run_call c s)).
Proof.
  intro H. destruct c; unfold dispatch, completion_item_next, completion_item_prev;
    cbv beta iota.
  - now apply on_update_consistent.
  - now apply selection_changed_consistent.
  - now apply next_prev_item_consistent.
  - now apply next_prev_item_consistent.
  - rewrite on_clear_run. destruct (_model s); [|exact H].
    now apply (@consistent_fields s).
  - unfold on_config_changed. run_body. split_run; try exact H;
      now apply (@consistent_fields s).
  - now apply (@consistent_fields s).
Qed.

(** *** Every view a run can reach *)

Lemma reachable_flag (s : CompletionView) : reach s -> _ignore_change s = false.
Proof.
  induction 1 as [cfg heap|s c _ IH]; [reflexivity|now apply dispatch_flag].
Qed.

Lemma reachable_consistent (s : CompletionView) : reach s -> consistent s.
Proof.
  induction 1 as [cfg heap|s c _ IH]; [|now apply dispatch_consistent].
  split; simpl; [discriminate|discriminate].
Qed.

(** *** Python indexing *)

Lemma py_getitem_out_of_range (A : Type) (l : list A) (i : Z) :
  (i < - Z.of_nat (List.length l) \/ Z.of_nat (List.length l) <= i)%Z ->
  py_getitem l i = None.
Proof.
  intro H. unfold py_getitem.
  destruct ((0 <=? i)%Z && (i <? Z.of_nat (List.length l))%Z) eqn:E1.
  - apply andb_true_iff in E1. destruct E1 as [E1 E2].
    apply Z.leb_le in E1. apply Z.ltb_lt in E2. lia.
  - destruct ((- Z.of_nat (List.length l) <=? i)%Z && (i <? 0)%Z) eqn:E2;
      [|reflexivity].
    apply andb_true_iff in E2. destruct E2 as [E2 E3].
    apply Z.leb_le in E2. apply Z.ltb_lt in E3. lia.
Qed.

Lemma py_getitem_in_range (A : Type) (l : list A) (i : Z) :
  (- Z.of_nat (List.length l) <= i < Z.of_nat (List.length l))%Z ->
  exists x, py_getitem l i = Some x.
Proof.
  intro H. unfold py_getitem.
  destruct ((0 <=? i)%Z && (i <? Z.of_nat (List.length l))%Z) eqn:E1.
  - apply andb_true_iff in E1. destruct E1 as [E1 E2].
    apply Z.leb_le in E1. apply Z.ltb_lt in E2.
    destruct (nth_error l (Z.to_nat i)) eqn:En; [eauto|].
    apply nth_error_None in En. lia.
  - assert (Hneg : (i < 0)%Z).
    { apply andb_false_iff in E1. destruct E1 as [E1|E1];
        [apply Z.leb_gt in E1|apply Z.ltb_ge in E1]; lia. }
    assert (E2 : ((- Z.of_nat (List.length l) <=? i)%Z && (i <? 0)%Z) = true).
    { apply andb_true_iff. split; [apply Z.leb_le|apply Z.ltb_lt]; lia. }
    rewrite E2.
    destruct (nth_error l (Z.to_nat (Z.of_nat (List.length l) + i))) eqn:En;
      [eauto|].
    apply nth_error_None in En. lia.
Qed.

(** *** The handler that re-enters itself *)

(** The update handler does the same whatever handler is behind the
    command line while it sets the pattern, as long as that handler
    honours the guard. *)
Lemma on_update_in_ext (h h' : string -> list string -> Z -> M unit)
    (prefix : string) (parts : list string) (cursor_part : Z)
    (s : CompletionView) :
  ignores_under_guard h ->
  ignores_under_guard h' ->
  on_update_completion_in accepts _get_new_completion text_input_echo
    qt_rows_changed h prefix parts cursor_part s =
  on_update_completion_in accepts _get_new_completion text_input_echo
    qt_rows_changed h' prefix parts cursor_part s.
Proof.
  intros Hh Hh'. unfold on_update_completion_in.
  pose proof (fun pat s1 => @set_pattern_in_ext h h' pat s1 Hh Hh') as E.
  revert E.
  generalize (set_pattern_in accepts text_input_echo qt_rows_changed h).
  generalize (set_pattern_in accepts text_input_echo qt_rows_changed h').
  intros sp' sp E. run_body.
  repeat first
    [ reflexivity
    | rewrite E
    | match goal with
      | |- context [match ?x with _ => _ end] =>
          lazymatch x with
          | context [sp] => fail
          | context [sp'] => fail
          | _ => destruct x eqn:?; simpl
          end
      end ].
Qed.

(** [on_update_completion] is the handler that is behind the command line
    while it sets the pattern itself. *)
Lemma on_update_completion_reentered (prefix : string) (parts : list string)
    (cursor_part : Z) (s : CompletionView) :
  on_update_completion_in accepts _get_new_completion text_input_echo
    qt_rows_changed update prefix parts cursor_part s =
  update prefix parts cursor_part s.
Proof.
  unfold on_update_completion at 2.
  apply on_update_in_ext;
    [exact on_update_ignores|exact returns_at_once_ignores].
Qed.

(** *** The update handler on a view that is consistent *)

(** The handler on a command line whose completer has a model: the model is
    switched when it is not the last one, then the pattern is taken and
    set, and the view shown or hidden. *)
Lemma on_update_with_model (parts : list string) (cursor_part : Z)
    (m : ModelId) (s : CompletionView) :
  _ignore_change s = false ->
  consistent s ->
  _get_new_completion parts cursor_part = Some m ->
  let r := update ":" parts cursor_part s in
  let switch := if model_eqb (Some m) (_lastmodel s) then []
                else [SetModel m; ResizeCompletion] in
  match (match parts with
         | [] => Some ""
         | _ :: _ => py_getitem parts cursor_part
         end) with
  | Some pat =>
      let cnt :=
        item_count accepts (mkFilterModel (categories (models s m)) pat) in
      outcome r = Return tt /\
      _model (final r) = Some m /\
      _lastmodel (final r) = Some m /\
      models (final r) = assign_pattern m pat (models s) /\
      visible (final r) =
      (if Nat.eqb cnt 0 then false else _enabled s || visible s) /\
      exists rest,
        effects r =
        switch ++ SetPattern m pat :: rest ++
        (if Nat.eqb cnt 0 then [Hide]
         else MarkAllItems m pat :: (if _enabled s then [Show] else [])) /\
        forall e, In e rest ->
                  e = ResizeCompletion \/
                  exists d, e = ChangeCompletedPart d false
  | None =>
      outcome r = Raise IndexError /\
      effects r = switch /\
      _model (final r) = Some m /\
      _lastmodel (final r) = Some m /\
      models (final r) = models s
  end.
Proof.
  intros Hflag [Hv Hm] Hget. cbv zeta.
  destruct (@on_update_anatomy parts cursor_part m s Hflag Hget)
    as [s1 [e1 [Hsw [He1 [Hl [_ [_ [_ [Hmod [_ H]]]]]]]]]].
  assert (Hm1 : _model s1 = Some m).
  { destruct Hsw as [[El [E1 _]]|[_ [E1 _]]]; [|exact E1].
    subst s1. now apply Hm. }
  rewrite Hm1 in H. rewrite <- He1.
  destruct (match parts with
            | [] => Some ""
            | _ :: _ => py_getitem parts cursor_part
            end) as [pat|].
  - cbv zeta in H.
    destruct H as [H1 [H2 [H3 [H4 [_ [_ [_ [H8 H9]]]]]]]].
    repeat (split; [assumption|]). exact H9.
  - rewrite H. cbn [outcome final effects]. repeat split; assumption.
Qed.

(** *** The claims about the widget *)

(** C1, as amended: on a command line with a model to complete from, the
    pattern is the empty string when there are no parts, whatever the
    cursor part; it is [parts[cursor_part]] when that index is in range,
    negative indices counting from the end; in both cases the handler
    returns, having switched the model if it changed ([switch]) and set the
    pattern on it.  When there are parts and the index is out of range the
    handler ends in an [IndexError] instead of taking an empty pattern: by
    then it has switched the model if it changed, and that is all it has
    done; no pattern was set. *)
Theorem C1_pattern_of_cursor_part (s : CompletionView) (parts : list string)
    (cursor_part : Z) (m : ModelId) :
  reach s ->
  _get_new_completion parts cursor_part = Some m ->
  let r := update ":" parts cursor_part s in
  let switch := if model_eqb (Some m) (_lastmodel s) then []
                else [SetModel m; ResizeCompletion] in
  (parts = [] ->
   outcome r = Return tt /\ _model (final r) = Some m /\
   pattern (models (final r) m) = "" /\
   exists rest, effects r = switch ++ SetPattern m "" :: rest) /\
  (forall pat,
     parts <> [] -> py_getitem parts cursor_part = Some pat ->
     outcome r = Return tt /\ _model (final r) = Some m /\
     pattern (models (final r) m) = pat /\
     exists rest, effects r = switch ++ SetPattern m pat :: rest) /\
  (parts <> [] ->
   (cursor_part < - Z.of_nat (List.length parts) \/
    Z.of_nat (List.length parts) <= cursor_part)%Z ->
   outcome r = Raise IndexError /\
   effects r = switch /\
   _model (final r) = Some m /\
   _lastmodel (final r) = Some m /\
   models (final r) = models s).
Proof.
  intros Hr Hget r switch.
  pose proof (@on_update_with_model parts cursor_part m s
                (reachable_flag Hr) (reachable_consistent Hr) Hget) as H.
  cbv zeta in H. fold r in H. fold switch in H.
  assert (G : forall pat,
             (match parts with
              | [] => Some ""
              | _ :: _ => py_getitem parts cursor_part
              end) = Some pat ->
             outcome r = Return tt /\ _model (final r) = Some m /\
             pattern (models (final r) m) = pat /\
             exists rest, effects r = switch ++ SetPattern m pat :: rest).
  { intros pat E. rewrite E in H.
    destruct H as [H1 [H2 [_ [H4 [_ [rest [H6 _]]]]]]].
    split; [exact H1|]. split; [exact H2|]. split.
    - rewrite H4. unfold assign_pattern. now rewrite Nat.eqb_refl.
    - eexists. exact H6. }
  split; [|split].
  - intro E. subst parts. now apply G.
  - intros pat Hne E. apply G. destruct parts; [congruence|exact E].
  - intros Hne Hout. destruct parts as [|p parts]; [congruence|].
    now rewrite (@py_getitem_out_of_range _ _ _ Hout) in H.
Qed.

(** C3: when the selection changes to an index with data in a model of one
    item and quick-complete is on, [selectionChanged] emits
    [change_completed_part] with [immediate] true, first of all and
    without setting [_ignore_change]: what follows in the run is what the
    command line's answers make the update handler do, on the view as it
    was.  With quick-complete off the same selection emits it with
    [immediate] false, [_ignore_change] being set while the command line
    answers, so that nothing else happens, and cleared afterwards. *)
Theorem C3_quick_complete (s : CompletionView) (idx : QModelIndex)
    (rest deselected : list QModelIndex) (m : ModelId) (d : string) :
  _model s = Some m ->
  data accepts (models s m) idx = Some d ->
  item_count accepts (models s m) = 1 ->
  let r := selection_changed (idx :: rest) deselected s in
  (completion_quick_complete (config s) = true ->
   hd_error (effects r) = Some (ChangeCompletedPart d true) /\
   r = mkRun (Return tt)
             (final (answers (text_input_echo d true) s))
             (ChangeCompletedPart d true ::
              effects (answers (text_input_echo d true) s))) /\
  (completion_quick_complete (config s) = false ->
   r = mkRun (Return tt) (set_ignore_change false s)
             [ChangeCompletedPart d false] /\
   answers (text_input_echo d false) (set_ignore_change true s) =
   mkRun (Return tt) (set_ignore_change true s) []).
Proof.
  intros Hm Hd Hc r. unfold r. rewrite selection_changed_run, Hm, Hd, Hc.
  simpl. split; intro Hq; rewrite Hq; simpl.
  - split; reflexivity.
  - split; [reflexivity|]. now apply deliver_ignored.
Qed.

(** C4: while [_ignore_change] is set the update handler does nothing at
    all; so a write-back with [immediate] false leaves the view as it was,
    whatever the command line sends back meanwhile, with the guard cleared;
    and the next update is handled again: one that is no command hides the
    view. *)
Theorem C4_echo_ignored (s : CompletionView) (idx : QModelIndex)
    (rest deselected : list QModelIndex) (m : ModelId) (d : string)
    (prefix : string) (parts : list string) (cursor_part : Z) :
  _model s = Some m ->
  data accepts (models s m) idx = Some d ->
  Nat.eqb (item_count accepts (models s m)) 1
  && completion_quick_complete (config s) = false ->
  let r := selection_changed (idx :: rest) deselected s in
  (forall s', _ignore_change s' = true ->
              update prefix parts cursor_part s' = mkRun (Return tt) s' []) /\
  r = mkRun (Return tt) (set_ignore_change false s)
            [ChangeCompletedPart d false] /\
  _ignore_change (final r) = false /\
  (String.eqb prefix ":" = false ->
   update prefix parts cursor_part (final r) =
   mkRun (Return tt) (set_visible false (final r)) [Hide]).
Proof.
  intros Hm Hd Hc r. unfold r. rewrite selection_changed_run, Hm, Hd, Hc.
  simpl. repeat split.
  - intros s' H'. now apply on_update_ignored.
  - intro Hp.
    now apply (@on_update_no_source_run prefix parts cursor_part
                 (set_ignore_change false s) eq_refl).
Qed.

(** C5: in every view a run can reach [_ignore_change] is false, and it is
    false again when any call of the view has ended, however it ended.
    In between it is true only for the provisional write-back: when the
    selection changes to an index with data, the command line's answers
    to [change_completed_part] are handled on the view with the guard set
    if the write-back is provisional ([immediate] false), and the guard is
    cleared when they are done; if it is immediate they are handled on the
    view as it is, the guard down. *)
Theorem C5_guard_scoped (s : CompletionView) (c : Call) :
  reach s ->
  _ignore_change s = false /\
  _ignore_change (final (run_call c s)) = false /\
  forall idx rest deselected m d,
    _model s = Some m ->
    data accepts (models s m) idx = Some d ->
    let immediate := Nat.eqb (item_count accepts (models s m)) 1
                     && completion_quick_complete (config s) in
    let during := if immediate then s else set_ignore_change true s in
    let echo := answers (text_input_echo d immediate) during in
    _ignore_change during = negb immediate /\
    selection_changed (idx :: rest) deselected s =
    mkRun (Return tt)
          (if immediate then final echo
           else set_ignore_change false (final echo))
          (ChangeCompletedPart d immediate :: effects echo).
Proof.
  intro Hr. pose proof (reachable_flag Hr) as H. split; [exact H|].
  split; [now apply dispatch_flag|].
  intros idx rest deselected m d Hm Hd. cbv zeta.
  unfold selectionChanged. rewrite selection_changed_in_run, Hm, Hd.
  destruct (Nat.eqb (item_count accepts (models s m)) 1
            && completion_quick_complete (config s)); cbv zeta; cbn [negb].
  - split; [exact H|reflexivity].
  - split; reflexivity.
Qed.

(** C6: when an update is no command, or the completer has no model for
    it, the view is hidden afterwards and nothing else was done: no model
    set, no pattern applied, no item marked. *)
Theorem C6_no_source_hides (s : CompletionView) (prefix : string)
    (parts : list string) (cursor_part : Z) :
  reach s ->
  String.eqb prefix ":" = false \/
  _get_new_completion parts cursor_part = None ->
  let r := update prefix parts cursor_part s in
  outcome r = Return tt /\
  visible (final r) = false /\
  (effects r = [] \/ effects r = [Hide]) /\
  models (final r) = models s /\
  _model (final r) = _model s /\
  currentIndex (final r) = currentIndex s /\
  selectedRow (final r) = selectedRow s.
Proof.
  intros Hr Hno r. unfold r.
  pose proof (reachable_flag Hr) as Hflag.
  destruct (reachable_consistent Hr) as [Hv _].
  destruct (@on_update_no_source_run prefix parts cursor_part s Hflag)
    as [N1 N2].
  destruct (String.eqb prefix ":") eqn:Ep; [|rewrite N1 by reflexivity].
  - destruct Hno as [Hno|Hno]; [discriminate|]. rewrite N2 by auto.
    destruct (_lastmodel s) eqn:El; simpl; [tauto|].
    repeat split; auto.
    destruct (visible s); [|reflexivity]. now destruct Hv.
  - simpl. tauto.
Qed.

(** C9, as amended: [selectionChanged] emits [change_completed_part]
    exactly when the first selected index has data, and with that data as
    its text, be it the empty string: the signal is then the first thing
    the run does, and what follows, if anything, is what the command
    line's answers to an immediate write-back make the update handler do;
    with an empty selection or an index without data the run does nothing
    at all. *)
Theorem C9_emits_when_data (s : CompletionView)
    (selected deselected : list QModelIndex) :
  effects (selection_changed selected deselected s) =
  match selected with
  | [] => []
  | idx :: _ =>
      match _model s with
      | None => []
      | Some m =>
          match data accepts (models s m) idx with
          | None => []
          | Some d =>
              if Nat.eqb (item_count accepts (models s m)) 1
                 && completion_quick_complete (config s)
              then ChangeCompletedPart d true ::
                   effects (answers (text_input_echo d true) s)
              else [ChangeCompletedPart d false]
          end
      end
  end.
Proof.
  rewrite selection_changed_run.
  destruct selected as [|idx rest]; [reflexivity|].
  destruct (_model s) as [m|]; [|reflexivity].
  destruct (data accepts (models s m) idx) as [d|]; [|reflexivity].
  now destruct (Nat.eqb (item_count accepts (models s m)) 1
                && completion_quick_complete (config s)).
Qed.

(** C10: on a hidden view [completion_item_next] and
    [completion_item_prev] return at once: the view is as it was and
    nothing was signalled. *)
Theorem C10_hidden_navigation_noop (s : CompletionView) :
  visible s = false ->
  completion_item_next accepts _get_new_completion text_input_echo
    qt_rows_changed s =
  mkRun (Return tt) s [] /\
  completion_item_prev accepts _get_new_completion text_input_echo
    qt_rows_changed s =
  mkRun (Return tt) s [].
Proof.
  intro H. unfold completion_item_next, completion_item_prev.
  rewrite !next_prev_item_run, H. now split.
Qed.

(** *** More on the widget *)

(** X9: A visible view has a model, the one the completer gave last. *)
Theorem visible_has_model (s : CompletionView) :
  reach s ->
  visible s = true ->
  exists m, _model s = Some m /\ _lastmodel s = Some m.
Proof.
  intros Hr Hv. destruct (reachable_consistent Hr) as [H1 H2].
  destruct (_lastmodel s) as [m|] eqn:E.
  - exists m. split; [now apply H2|reflexivity].
  - now destruct (H1 Hv).
Qed.

(** With an item in the view, the loop of [_next_idx] ends at an item. *)
Lemma next_idx_item (m : FilterModel) (current : QModelIndex)
    (upwards : bool) :
  leaves accepts m <> [] ->
  exists idx effs,
    _next_idx accepts m current upwards = Some (idx, effs) /\
    In idx (leaves accepts m).
Proof.
  intro Hne.
  assert (Hf : In (first_item accepts m) (leaves accepts m)).
  { rewrite first_item_hd. destruct (leaves accepts m); [congruence|now left]. }
  assert (Hl : In (last_item accepts m) (leaves accepts m)).
  { rewrite last_item_last.
    destruct (last_leaves accepts m) as [E|E]; [|exact E].
    destruct (leaves accepts m) as [|y l] eqn:El; [congruence|].
    destruct (exists_last (l := y :: l)) as [l' [z Ez]]; [discriminate|].
    rewrite Ez, last_last. apply in_or_app. right. now left. }
  unfold _next_idx. destruct (isValid current); cbv beta iota delta [negb].
  - destruct (in_dec idx_eq_dec current (viewItems accepts m)) as [Hin|Hout].
    + destruct (@In_NoDup_split _ current (viewItems_NoDup accepts m) Hin)
        as [pre [post [E _]]].
      assert (Hlen : List.length (viewItems accepts m) =
                     List.length pre + S (List.length post)).
      { rewrite E, length_app. reflexivity. }
      destruct upwards.
      * rewrite (next_idx_loop_up accepts m pre post current E) by lia.
        destruct (filter is_leaf (rev pre)) as [|y l] eqn:Ef.
        -- now exists (last_item accepts m), [].
        -- exists y, []. split; [reflexivity|].
           apply (@filter_hd_leaf accepts m (rev pre) y l); [|exact Ef].
           intros z Hz. rewrite E. apply in_or_app. left. now apply in_rev.
      * rewrite (next_idx_loop_down accepts m post pre current E) by lia.
        destruct (filter is_leaf post) as [|y l] eqn:Ef.
        -- eexists _, _. split; [reflexivity|exact Hf].
        -- exists y, []. split; [reflexivity|].
           apply (@filter_hd_leaf accepts m post y l); [|exact Ef].
           intros z Hz. rewrite E. apply in_or_app. right. now right.
    + simpl. unfold indexAbove, indexBelow.
      rewrite (@viewIndex_notin (viewItems accepts m) current Hout).
      destruct upwards; simpl.
      * now exists (last_item accepts m), [].
      * eexists _, _. split; [reflexivity|exact Hf].
  - now exists (first_item accepts m), [].
Qed.

Lemma next_idx_returns (m : FilterModel) (current : QModelIndex)
    (upwards : bool) :
  exists idx effs, _next_idx accepts m current upwards = Some (idx, effs).
Proof.
  unfold _next_idx. destruct (isValid current); cbv beta iota delta [negb].
  - destruct (next_idx_loop_total accepts m upwards current)
      as [idx [effs [E _]]].
    now exists idx, effs.
  - now exists (first_item accepts m), [].
Qed.

Lemma selection_changed_outcome (selected deselected : list QModelIndex)
    (s : CompletionView) :
  _model s <> None ->
  outcome (selection_changed selected deselected s) = Return tt.
Proof.
  intro H. rewrite selection_changed_run.
  destruct selected as [|idx rest]; [reflexivity|].
  destruct (_model s) as [m|]; [|congruence].
  destruct (data accepts (models s m) idx); [|reflexivity].
  now destruct (Nat.eqb (item_count accepts (models s m)) 1
                && completion_quick_complete (config s)).
Qed.

(** X10: in no view a run can reach do [completion_item_next] and
    [completion_item_prev] end in an exception or a loop that does not
    end. *)
Theorem navigation_never_raises (s : CompletionView) (prev : bool) :
  reach s -> outcome (next_prev prev s) = Return tt.
Proof.
  intro Hr. rewrite next_prev_item_run.
  destruct (visible s) eqn:Ev; cbn [negb]; [|reflexivity].
  destruct (reachable_consistent Hr) as [H1 H2].
  destruct (_lastmodel s) as [m|] eqn:El; [|now destruct (H1 Ev)].
  rewrite (H2 m eq_refl).
  destruct (next_idx_returns (models s m) (currentIndex s) prev)
    as [idx [scrolls E]].
  rewrite E. cbv zeta. cbn [outcome]. rewrite set_current_run.
  destruct (idx_eqb (selectedRow s) idx); [reflexivity|].
  apply selection_changed_outcome. simpl. rewrite (H2 m eq_refl). discriminate.
Qed.

(** X11: A press of the tab key on a visible view with items, outside
    quick-complete: the next item becomes the current one and, when it was
    not selected already, its text goes to the command line as a
    preview. *)
Theorem next_prev_item_writes_back (s : CompletionView) (prev : bool)
    (m : ModelId) :
  visible s = true ->
  _model s = Some m ->
  item_count accepts (models s m) <> 0 ->
  Nat.eqb (item_count accepts (models s m)) 1
  && completion_quick_complete (config s) = false ->
  exists idx scrolls d,
    _next_idx accepts (models s m) (currentIndex s) prev =
    Some (idx, scrolls) /\
    In idx (leaves accepts (models s m)) /\
    data accepts (models s m) idx = Some d /\
    (selectedRow s <> idx ->
     next_prev prev s =
     mkRun (Return tt)
           (set_ignore_change false
              (set_selectedRow idx (set_currentIndex idx s)))
           (scrolls ++ [ChangeCompletedPart d false])).
Proof.
  intros Hv Hm Hc Hq.
  assert (Hne : leaves accepts (models s m) <> []).
  { rewrite item_count_leaves in Hc.
    destruct (leaves accepts (models s m)); [contradiction|discriminate]. }
  destruct (next_idx_item (models s m) (currentIndex s) prev Hne)
    as [idx [scrolls [E Hin]]].
  destruct (leaves_have_data accepts _ _ Hin)
    as [c [r [its [it [_ [_ [_ [_ Hd]]]]]]]].
  exists idx, scrolls, (text it). repeat split; auto.
  intro Hsel. rewrite next_prev_item_run, Hv, Hm, E. cbv zeta. cbn [negb].
  rewrite set_current_run.
  rewrite idx_eqb_neq by exact Hsel.
  rewrite selection_changed_run.
  assert (Hvalid : isValid idx = true)
    by (apply leaf_valid; now apply (leaves_is_leaf accepts (models s m))).
  rewrite Hvalid. simpl. rewrite Hm, Hd, Hq. reflexivity.
Qed.

(** X12: [on_clear_completion_selection] never writes to the command line and
    never raises; with a model set it leaves no current index and no
    selection, so that the next step of [_next_idx] starts at the first
    item; without a model it does nothing. *)
Theorem clear_selection_resets (s : CompletionView) :
  let r := on_clear_completion_selection accepts _get_new_completion
             text_input_echo qt_rows_changed s in
  outcome r = Return tt /\
  effects r = [] /\
  (_model s = None -> final r = s) /\
  (forall m upwards,
     _model s = Some m ->
     currentIndex (final r) = Invalid /\
     selectedRow (final r) = Invalid /\
     _next_idx accepts (models (final r) m) (currentIndex (final r)) upwards =
     Some (first_item accepts (models s m), [])).
Proof.
  cbv zeta. rewrite on_clear_run.
  destruct (_model s) as [m|]; simpl.
  - split; [reflexivity|]. split; [reflexivity|]. split; [discriminate|].
    intros m' upwards Em. injection Em as Em. subst m'.
    repeat split; reflexivity.
  - split; [reflexivity|]. split; [reflexivity|]. split; [reflexivity|].
    intros; discriminate.
Qed.

(** *** Exceptions of the update handler *)

Lemma on_update_no_source_outcome (prefix : string) (parts : list string)
    (cursor_part : Z) (s : CompletionView) :
  String.eqb prefix ":" = false \/
  _get_new_completion parts cursor_part = None ->
  outcome (update prefix parts cursor_part s) = Return tt.
Proof.
  intro H.
  destruct (_ignore_change s) eqn:Hflag; [now rewrite on_update_ignored|].
  destruct (@on_update_no_source_run prefix parts cursor_part s Hflag)
    as [N1 N2].
  destruct (String.eqb prefix ":") eqn:Ep; [|now rewrite N1].
  destruct H as [H|H]; [discriminate|]. rewrite N2 by auto.
  now destruct (_lastmodel s).
Qed.

(** X5: in a view a run can reach the update handler ends normally or in an
    [IndexError], and in an [IndexError] exactly when the update is a
    command, the completer has a model for it, there are parts, and the
    cursor part is no index of them. *)
Theorem on_update_raises_only_index_error (s : CompletionView)
    (prefix : string) (parts : list string) (cursor_part : Z) :
  reach s ->
  let r := update prefix parts cursor_part s in
  (outcome r = Return tt \/ outcome r = Raise IndexError) /\
  (outcome r = Raise IndexError <->
   prefix = ":" /\
   (exists m, _get_new_completion parts cursor_part = Some m) /\
   parts <> [] /\
   (cursor_part < - Z.of_nat (List.length parts) \/
    Z.of_nat (List.length parts) <= cursor_part)%Z).
Proof.
  intros Hr r. unfold r.
  destruct (String.eqb prefix ":") eqn:Ep.
  - apply String.eqb_eq in Ep. subst prefix.
    destruct (_get_new_completion parts cursor_part) as [m|] eqn:Eg.
    + pose proof (@on_update_with_model parts cursor_part m s
                    (reachable_flag Hr) (reachable_consistent Hr) Eg) as H.
      cbv zeta in H. destruct parts as [|p parts].
      * destruct H as [H _]. rewrite H. split; [now left|].
        split; [discriminate|]. intros [_ [_ [Hp _]]]. congruence.
      * destruct (py_getitem (p :: parts) cursor_part) as [pat|] eqn:Epat.
        -- destruct H as [H _]. rewrite H. split; [now left|].
           split; [discriminate|]. intros [_ [_ [_ Hout]]].
           rewrite (@py_getitem_out_of_range _ _ _ Hout) in Epat.
           discriminate.
        -- destruct H as [H _]. rewrite H.
           split; [now right|]. split; [|reflexivity].
           intros _. split; [reflexivity|]. split; [now exists m|].
           split; [discriminate|].
           destruct (Z_lt_dec cursor_part
                       (- Z.of_nat (List.length (p :: parts)))) as [Hlt|Hge];
             [now left|].
           destruct (Z_le_dec (Z.of_nat (List.length (p :: parts)))
                       cursor_part) as [Hle|Hgt]; [now right|].
           destruct (@py_getitem_in_range _ (p :: parts) cursor_part)
             as [x Ex]; [lia|congruence].
    + rewrite (@on_update_no_source_outcome ":" parts cursor_part s
                 (or_intror Eg)).
      split; [now left|]. split; [discriminate|].
      intros [_ [[m Em] _]]. discriminate.
  - rewrite (@on_update_no_source_outcome prefix parts cursor_part s
               (or_introl Ep)).
    split; [now left|]. split; [discriminate|].
    intros [Hp _]. subst prefix. discriminate.
Qed.

(** *** When the model is switched *)

(** The effects of an update with a model, whichever way it ends: those of
    the switch of the model, if there was one, and then none that sets a
    model. *)
Lemma on_update_effects (parts : list string) (cursor_part : Z) (m : ModelId)
    (s : CompletionView) :
  _ignore_change s = false ->
  _get_new_completion parts cursor_part = Some m ->
  exists more,
    effects (update ":" parts cursor_part s) =
    (if model_eqb (Some m) (_lastmodel s) then []
     else [SetModel m; ResizeCompletion]) ++ more /\
    forall e, In e more ->
              match e with
              | SetModel _ => False
              | ChangeCompletedPart _ immediate => immediate = false
              | _ => True
              end.
Proof.
  intros Hflag Hget.
  destruct (@on_update_anatomy parts cursor_part m s Hflag Hget)
    as [s1 [e1 [_ [He1 [_ [_ [_ [_ [_ [_ H]]]]]]]]]].
  rewrite <- He1.
  destruct (match parts with
            | [] => Some ""
            | _ :: _ => py_getitem parts cursor_part
            end) as [pat|].
  - destruct (_model s1) as [m0|].
    + cbv zeta in H.
      destruct H as [_ [_ [_ [_ [_ [_ [_ [_ [rest [E Hrest]]]]]]]]]].
      eexists. split; [exact E|].
      intros e [He|He]; [now subst e|].
      apply in_app_or in He. destruct He as [He|He].
      * destruct (Hrest e He) as [He'|[d He']]; now subst e.
      * destruct (Nat.eqb _ 0); [destruct He as [He|[]]; now subst e|].
        destruct He as [He|He]; [now subst e|].
        destruct (_enabled s); [destruct He as [He|[]]; now subst e|].
        contradiction.
    + rewrite H. exists []. split; [now rewrite app_nil_r|]. intros e [].
  - rewrite H. exists []. split; [now rewrite app_nil_r|]. intros e [].
Qed.

(** X6: the update handler gives the view a model exactly when it is not
    ignoring changes, the update is a command and the completer answers
    with a model that is not the last one; it never sets a model
    twice. *)
Theorem on_update_sets_model_on_change (s : CompletionView) (prefix : string)
    (parts : list string) (cursor_part : Z) (m : ModelId) :
  let r := update prefix parts cursor_part s in
  (In (SetModel m) (effects r) <->
   _ignore_change s = false /\ prefix = ":" /\
   _get_new_completion parts cursor_part = Some m /\
   _lastmodel s <> Some m) /\
  List.length (filter (fun e => match e with SetModel _ => true | _ => false end)
                 (effects r)) <= 1.
Proof.
  cbv zeta.
  destruct (_ignore_change s) eqn:Hflag.
  { rewrite on_update_ignored by exact Hflag. simpl.
    split; [split; [tauto|intros [H _]; discriminate]|lia]. }
  destruct (@on_update_no_source_run prefix parts cursor_part s Hflag)
    as [N1 N2].
  destruct (String.eqb prefix ":") eqn:Ep.
  2:{ rewrite N1 by reflexivity. simpl. split; [|lia].
      split; [intros [H|[]]; discriminate|].
      intros [_ [H _]]. subst prefix. discriminate. }
  destruct (_get_new_completion parts cursor_part) as [m'|] eqn:Hget.
  2:{ rewrite N2 by auto.
      destruct (_lastmodel s); simpl; (split; [|lia]);
        (split; [intros H; simpl in H; intuition discriminate|]);
        intros [_ [_ [H _]]]; discriminate. }
  apply String.eqb_eq in Ep. subst prefix.
  destruct (@on_update_effects parts cursor_part m' s Hflag Hget)
    as [more [E Hmore]].
  rewrite E.
  assert (Hnone : filter (fun e => match e with
                                   | SetModel _ => true
                                   | _ => false
                                   end) more = []).
  { apply filter_none. intros e He. specialize (Hmore e He).
    now destruct e. }
  assert (Hnot : ~ In (SetModel m) more).
  { intro He. exact (Hmore _ He). }
  rewrite filter_app, Hnone, app_nil_r.
  destruct (model_eqb (Some m') (_lastmodel s)) eqn:Esw.
  - apply model_eqb_some in Esw. simpl. split; [|lia]. split.
    + intro H. contradiction.
    + intros [_ [_ [H1 H2]]]. congruence.
  - assert (Hne : _lastmodel s <> Some m').
    { intro H. apply model_eqb_some in H. congruence. }
    simpl. split; [|lia]. split.
    + intros [H|[H|H]]; try discriminate; [|contradiction].
      injection H as H. subst m'. auto.
    + intros [_ [_ [H1 _]]]. injection H1 as H1. subst m'. now left.
Qed.

(** *** What an update shows *)

(** X7: an update with a model and a pattern: the pattern is set on the model
    of the view and on no other; with no item passing, the view is hidden;
    otherwise the items are marked and the view is shown if showing is
    enabled, and left as it was if not. *)
Theorem on_update_shows_items (s : CompletionView) (parts : list string)
    (cursor_part : Z) (m : ModelId) (pat : string) :
  reach s ->
  _get_new_completion parts cursor_part = Some m ->
  match parts with
  | [] => Some ""
  | _ :: _ => py_getitem parts cursor_part
  end = Some pat ->
  let r := update ":" parts cursor_part s in
  let cnt := item_count accepts (mkFilterModel (categories (models s m)) pat) in
  visible (final r) = (if Nat.eqb cnt 0 then false else _enabled s || visible s) /\
  (In (MarkAllItems m pat) (effects r) <-> cnt <> 0) /\
  models (final r) m = mkFilterModel (categories (models s m)) pat /\
  (forall i, i <> m -> models (final r) i = models s i).
Proof.
  intros Hr Hget Hpat.
  pose proof (@on_update_with_model parts cursor_part m s
                (reachable_flag Hr) (reachable_consistent Hr) Hget) as H.
  cbv zeta in H. rewrite Hpat in H. cbv zeta.
  destruct H as [_ [_ [_ [Hmod [Hvis [rest [E Hrest]]]]]]].
  split; [exact Hvis|]. split; [|split].
  - rewrite E. split.
    + intro H. apply in_app_or in H. destruct H as [H|H].
      { destruct (model_eqb (Some m) (_lastmodel s)); simpl in H;
          intuition discriminate. }
      destruct H as [H|H]; [discriminate|].
      apply in_app_or in H. destruct H as [H|H].
      { destruct (Hrest _ H) as [H'|[d H']]; discriminate. }
      destruct (Nat.eqb _ 0) eqn:Ec;
        [destruct H as [H|[]]; discriminate|].
      now apply Nat.eqb_neq in Ec.
    + intro Hc. apply Nat.eqb_neq in Hc. rewrite Hc.
      apply in_or_app. right. right. apply in_or_app. right. now left.
  - rewrite Hmod. unfold assign_pattern. now rewrite Nat.eqb_refl.
  - intros i Hi. rewrite Hmod. unfold assign_pattern.
    apply Nat.eqb_neq in Hi. now rewrite Hi.
Qed.

(** *** The same update twice *)

Lemma view_eq_refl (s : CompletionView) : view_eq s s.
Proof. unfold view_eq. repeat split. Qed.

(** Setting, on a view the update handler has left, the pattern it has
    set. *)
Lemma on_update_again (parts : list string) (cursor_part : Z)
    (m m0 : ModelId) (pat : string) (s' : CompletionView) (cats : list Category) :
  _ignore_change s' = false ->
  _get_new_completion parts cursor_part = Some m ->
  match parts with
  | [] => Some ""
  | _ :: _ => py_getitem parts cursor_part
  end = Some pat ->
  _lastmodel s' = Some m ->
  _model s' = Some m0 ->
  models s' m0 = mkFilterModel cats pat ->
  visible s' =
  (if Nat.eqb (item_count accepts (mkFilterModel cats pat)) 0 then false
   else _enabled s' || visible s') ->
  let r := update ":" parts cursor_part s' in
  view_eq (final r) s' /\ forall m', ~ In (SetModel m') (effects r).
Proof.
  intros Hflag Hget Hpat Hl Hm Hmod Hvis. cbv zeta.
  rewrite (@on_update_run parts cursor_part m s' Hflag Hget).
  cbv zeta. rewrite Hpat.
  assert (Esw : model_eqb (Some m) (_lastmodel s') = true)
    by now apply model_eqb_some.
  rewrite Esw. cbn [negb]. rewrite Hm.
  assert (Ep : set_pat pat s' =
               mkRun (Return tt)
                     (set_models (assign_pattern m0 pat (models s')) s')
                     [SetPattern m0 pat]).
  { apply set_pattern_in_same_rows; [exact Hm|].
    rewrite Hmod. apply same_rows_refl. }
  rewrite Ep. cbn [outcome final effects].
  assert (Eh : forall i, assign_pattern m0 pat (models s') i = models s' i).
  { intro i. unfold assign_pattern. destruct (Nat.eqb i m0) eqn:Ei;
      [|reflexivity].
    apply Nat.eqb_eq in Ei. subst i. now rewrite Hmod. }
  assert (Ec : item_count accepts
                 (models (set_models (assign_pattern m0 pat (models s')) s') m0) =
               item_count accepts (mkFilterModel cats pat)).
  { simpl. now rewrite Eh, Hmod. }
  rewrite Ec.
  destruct (Nat.eqb (item_count accepts (mkFilterModel cats pat)) 0).
  - cbn [final effects]. split.
    + unfold view_eq. simpl. repeat split; auto.
    + intros m' H. simpl in H. intuition discriminate.
  - cbn [_enabled set_models].
    destruct (_enabled s') eqn:Een; cbn [final effects]; split.
    + unfold view_eq. simpl. repeat split; auto.
    + intros m' H. simpl in H. intuition discriminate.
    + unfold view_eq. simpl. repeat split; auto.
    + intros m' H. simpl in H. intuition discriminate.
Qed.

(** X8: handling the same update a second time changes nothing: the view is
    left as the first time left it, attribute by attribute and model by
    model, and no model is set again. *)
Theorem on_update_idempotent (s : CompletionView) (prefix : string)
    (parts : list string) (cursor_part : Z) :
  let s1 := final (update prefix parts cursor_part s) in
  view_eq (final (update prefix parts cursor_part s1)) s1 /\
  (forall m, ~ In (SetModel m) (effects (update prefix parts cursor_part s1))).
Proof.
  cbv zeta.
  destruct (_ignore_change s) eqn:Hflag.
  { rewrite (on_update_ignored prefix parts cursor_part s Hflag).
    cbn [final]. rewrite (on_update_ignored prefix parts cursor_part s Hflag).
    split; [apply view_eq_refl|intros m1 []]. }
  destruct (@on_update_no_source_run prefix parts cursor_part s Hflag)
    as [N1 N2].
  destruct (String.eqb prefix ":") eqn:Ep.
  2:{ rewrite N1 by reflexivity. cbn [final].
      destruct (@on_update_no_source_run prefix parts cursor_part
                  (set_visible false s) Hflag) as [N1' _].
      rewrite N1' by exact Ep. cbn [final effects].
      split; [unfold view_eq; simpl; repeat split|].
      intros m1 H. simpl in H. intuition discriminate. }
  destruct (_get_new_completion parts cursor_part) as [m|] eqn:Hget.
  2:{ rewrite N2 by auto.
      destruct (_lastmodel s) eqn:El; cbn [final].
      - destruct (@on_update_no_source_run prefix parts cursor_part
                    (set_visible false (set_lastmodel None s)) Hflag)
          as [_ N2'].
        rewrite N2' by auto. cbn [_lastmodel set_visible set_lastmodel].
        split; [apply view_eq_refl|intros m1 []].
      - rewrite N2 by auto.
        split; [apply view_eq_refl|intros m1 []]. }
  apply String.eqb_eq in Ep. subst prefix.
  destruct (@on_update_anatomy parts cursor_part m s Hflag Hget)
    as [s1 [e1 [Hsw [_ [Hl [_ [Hen [Hvis [Hmod [Hf1 H]]]]]]]]]].
  destruct (match parts with
            | [] => Some ""
            | _ :: _ => py_getitem parts cursor_part
            end) as [pat|] eqn:Hpat.
  - destruct (_model s1) as [m0|] eqn:Em0.
    + cbv zeta in H.
      destruct H as [_ [Hm' [Hl' [Hmod' [_ [Hen' [Hf' [Hvis' _]]]]]]]].
      apply (@on_update_again parts cursor_part m m0 pat _
               (categories (models s m0))); auto.
      * rewrite Hmod'. unfold assign_pattern. now rewrite Nat.eqb_refl.
      * rewrite Hvis', Hen'.
        destruct (Nat.eqb _ 0); [reflexivity|].
        destruct (_enabled s); [reflexivity|]. simpl.
        reflexivity.
    + rewrite H. cbn [final].
      rewrite (@on_update_run parts cursor_part m s1 Hf1 Hget).
      cbv zeta. rewrite Hpat.
      assert (Esw : model_eqb (Some m) (_lastmodel s1) = true)
        by now apply model_eqb_some.
      rewrite Esw. cbn [negb]. rewrite Em0. cbn [final effects].
      split; [apply view_eq_refl|intros m' []].
  - rewrite H. cbn [final].
    rewrite (@on_update_run parts cursor_part m s1 Hf1 Hget).
    cbv zeta. rewrite Hpat.
    assert (Esw : model_eqb (Some m) (_lastmodel s1) = true)
      by now apply model_eqb_some.
    rewrite Esw. cbn [negb final effects].
    split; [apply view_eq_refl|intros m' []].
Qed.

(** *** What Qt adds to an update *)


(** X19: when the completer, after having had no model, answers with the
    model the view has still got, the update handler sets that model
    again, and the selection made in it before is still there once the
    pattern it had is set again. *)
Theorem on_update_same_model_again (s : CompletionView) (parts : list string)
    (cursor_part : Z) (m : ModelId) (pat : string) :
  _ignore_change s = false ->
  _model s = Some m ->
  _lastmodel s = None ->
  _get_new_completion parts cursor_part = Some m ->
  match parts with
  | [] => Some ""
  | _ :: _ => py_getitem parts cursor_part
  end = Some pat ->
  pattern (models s m) = pat ->
  let r := update ":" parts cursor_part s in
  outcome r = Return tt /\
  In (SetModel m) (effects r) /\
  _lastmodel (final r) = Some m /\
  currentIndex (final r) = currentIndex s /\
  selectedRow (final r) = selectedRow s.
Proof.
  intros Hflag Hm Hl Hget Hpat Hp. cbv zeta.
  rewrite (@on_update_run parts cursor_part m s Hflag Hget).
  cbv zeta. rewrite Hpat, Hl. cbn [model_eqb negb].
  assert (E1 : final (set_model m (set_lastmodel (Some m) s)) =
               set__model (Some m) (set_lastmodel (Some m) s)).
  { run_body. run_body. rewrite Hm. simpl. now rewrite Nat.eqb_refl. }
  rewrite E1. cbn [_model set__model].
  assert (Ep : set_pat pat (set__model (Some m) (set_lastmodel (Some m) s)) =
               mkRun (Return tt)
                     (set_models
                        (assign_pattern m pat
                           (models (set__model (Some m)
                                      (set_lastmodel (Some m) s))))
                        (set__model (Some m) (set_lastmodel (Some m) s)))
                     [SetPattern m pat]).
  { apply set_pattern_in_same_rows; [reflexivity|].
    cbn [models set__model set_lastmodel]. unfold shown.
    cbn [pattern categories]. rewrite Hp. apply same_rows_refl. }
  rewrite Ep. cbn [final effects].
  destruct (Nat.eqb _ 0); [|destruct (_enabled _)];
    cbn [outcome final effects];
    (split; [reflexivity|]); (split; [now left|]); repeat split.
Qed.

End Widget.
(** ** The widths of the columns *)

(** X13: without a scroll bar the three columns are given 20, 70 and 10
    percent of the width of the view, each rounded down; these widths are
    not negative and add up to the width of the view, less at most two
    pixels lost to rounding. *)
Theorem resize_columns_fills_width (width extent : Z) :
  (0 <= width)%Z ->
  let a := (width * 20 / 100)%Z in
  let b := (width * 70 / 100)%Z in
  let c := (width * 10 / 100)%Z in
  _resize_columns width false extent = Some [(0, a); (1, b); (2, c)] /\
  (0 <= a /\ 0 <= b /\ 0 <= c /\ width - 2 <= a + b + c <= width)%Z.
Proof.
  intro H. cbv zeta. split; [reflexivity|].
  repeat split; try (apply Z.div_pos; lia);
    Z.div_mod_to_equations; lia.
Qed.

(** X14: A visible scroll bar takes its extent and five pixels more from the
    last column and from no other, so that the last column is given a
    negative width exactly in views narrower than ten times that. *)
Theorem resize_columns_scrollbar (width extent : Z) :
  exists a b c,
    _resize_columns width false extent = Some [(0, a); (1, b); (2, c)] /\
    _resize_columns width true extent =
    Some [(0, a); (1, b); (2, (c - (extent + 5))%Z)] /\
    ((c - (extent + 5) < 0)%Z <-> (width < 10 * (extent + 5))%Z).
Proof.
  eexists _, _, _. split; [reflexivity|]. split; [reflexivity|].
  split; intro H; Z.div_mod_to_equations; lia.
Qed.

(** ** The importer *)

Lemma has_space_app (a b : string) :
  has_space (a ++ b) = has_space a || has_space b.
Proof.
  induction a as [|c a IH]; simpl; [reflexivity|].
  now rewrite IH, orb_assoc.
Qed.

Lemma format_bookmark_has_space (tag : Tag) (href : string) :
  has_space (format_bookmark tag href) = true.
Proof.
  unfold format_bookmark. rewrite has_space_app. simpl.
  apply orb_true_r.
Qed.

Lemma py_in_In (x : string) (l : list string) : py_in x l = true <-> In x l.
Proof.
  unfold py_in. rewrite existsb_exists. split.
  - intros [y [Hy E]]. apply String.eqb_eq in E. now subst y.
  - intro H. exists x. split; [exact H|apply String.eqb_refl].
Qed.

Lemma collect_bookmarks_none (html_tags : list Tag) :
  forall bookmarks,
    collect_bookmarks html_tags bookmarks = None <->
    exists tag, In tag html_tags /\ tag_getitem (attrs tag) "href" = None.
Proof.
  induction html_tags as [|tag rest IH]; intro bookmarks; simpl.
  - split; [discriminate|intros [tag [[] _]]].
  - destruct (tag_getitem (attrs tag) "href") as [href|] eqn:E.
    + assert (G : forall acc,
                 collect_bookmarks rest acc = None <->
                 exists t, (tag = t \/ In t rest) /\
                           tag_getitem (attrs t) "href" = None).
      { intro acc. rewrite IH. split.
        - intros [t [Ht Hn]]. exists t. auto.
        - intros [t [[Ht|Ht] Hn]]; [subst t; congruence|now exists t]. }
      destruct (negb (py_in href bookmarks)); apply G.
    + split; [|reflexivity]. intros _. exists tag. auto.
Qed.

(** X15: the importer ends in a [KeyError], with nothing printed, exactly when
    some [a] element of the file has no [href]. *)
Theorem import_chromium_keyerror (html_tags : list Tag) :
  import_chromium html_tags = None <->
  exists tag, In tag html_tags /\ tag_getitem (attrs tag) "href" = None.
Proof. apply collect_bookmarks_none. Qed.

Lemma collect_bookmarks_lines (html_tags : list Tag) :
  forall bookmarks lines,
    collect_bookmarks html_tags bookmarks = Some lines ->
    exists added,
      lines = bookmarks ++ added /\
      List.length added <= List.length html_tags /\
      (forall line, In line added ->
                    exists tag, In tag html_tags /\ line = bookmark_line tag).
Proof.
  induction html_tags as [|tag rest IH]; intros bookmarks lines H; simpl in H.
  - injection H as H. subst lines. exists []. rewrite app_nil_r.
    repeat split; auto. intros line [].
  - destruct (tag_getitem (attrs tag) "href") as [href|] eqn:E;
      [|discriminate].
    destruct (negb (py_in href bookmarks)).
    + destruct (IH _ _ H) as [added [E1 [E2 E3]]].
      exists (format_bookmark tag href :: added). rewrite E1, <- app_assoc.
      split; [reflexivity|]. split; [simpl; lia|].
      intros line [Hl|Hl].
      * exists tag. split; [now left|]. unfold bookmark_line. now rewrite E.
      * destruct (E3 line Hl) as [t [Ht Et]]. exists t. split; [now right|auto].
    + destruct (IH _ _ H) as [added [E1 [E2 E3]]].
      exists added. split; [exact E1|]. split; [simpl; lia|].
      intros line Hl. destruct (E3 line Hl) as [t [Ht Et]].
      exists t. split; [now right|auto].
Qed.

(** X16: what the importer prints: at most one line for an element, each the
    text and the [href] of an element of the file, and first of all the
    line of the first element. *)
Theorem import_chromium_lines (html_tags : list Tag) (lines : list string) :
  import_chromium html_tags = Some lines ->
  List.length lines <= List.length html_tags /\
  (forall line, In line lines ->
                exists tag, In tag html_tags /\ line = bookmark_line tag) /\
  (forall tag rest, html_tags = tag :: rest ->
                    exists more, lines = bookmark_line tag :: more).
Proof.
  intro H. destruct (collect_bookmarks_lines _ _ H) as [added [E1 [E2 E3]]].
  simpl in E1. subst added. split; [exact E2|]. split; [exact E3|].
  intros tag rest Et. subst html_tags. unfold import_chromium in H.
  simpl in H. unfold bookmark_line.
  destruct (tag_getitem (attrs tag) "href") as [href|]; [|discriminate].
  simpl in H. destruct (collect_bookmarks_lines _ _ H) as [more [Em _]].
  exists more. exact Em.
Qed.

Lemma collect_bookmarks_all (html_tags : list Tag) :
  forall bookmarks,
    (forall line, In line bookmarks -> has_space line = true) ->
    (forall tag, In tag html_tags ->
                 exists href, tag_getitem (attrs tag) "href" = Some href /\
                              has_space href = false) ->
    collect_bookmarks html_tags bookmarks =
    Some (bookmarks ++ map bookmark_line html_tags).
Proof.
  induction html_tags as [|tag rest IH]; intros bookmarks Hb Ht; simpl.
  - now rewrite app_nil_r.
  - destruct (Ht tag (or_introl eq_refl)) as [href [E Hs]].
    unfold bookmark_line at 1. rewrite E.
    assert (Hout : py_in href bookmarks = false).
    { destruct (py_in href bookmarks) eqn:Ein; [|reflexivity].
      apply py_in_In in Ein. apply Hb in Ein. congruence. }
    rewrite Hout. simpl. rewrite IH.
    + now rewrite <- app_assoc.
    + intros line Hl. apply in_app_or in Hl. destruct Hl as [Hl|[Hl|[]]].
      * now apply Hb.
      * subst line. apply format_bookmark_has_space.
    + intros t Hin. apply Ht. now right.
Qed.

(** X17: when no [href] of the file has a space in it, the test against the
    lines collected so far never finds one, and the importer prints a line
    for every element, in the order of the file; bookmarks of the same
    address are all kept. *)
Theorem import_chromium_keeps_all (html_tags : list Tag) :
  (forall tag, In tag html_tags ->
               exists href, tag_getitem (attrs tag) "href" = Some href /\
                            has_space href = false) ->
  import_chromium html_tags = Some (map bookmark_line html_tags).
Proof.
  intro H. unfold import_chromium.
  rewrite collect_bookmarks_all; [reflexivity| |exact H]. intros line [].
Qed.

(** ** The theorems at work *)

(** C1: the part under the cursor is missing. *)
Lemma C1_out_of_range_counterexample :
  (Z.of_nat (List.length ["open"]) <= 1)%Z /\
  always_model ["open"] 1%Z = Some 0 /\
  outcome (on_update_completion accept_all always_model echo_once qt_stays
             ":" ["open"] 1 (init quick_off (fun _ => commands))) <>
  Return tt.
Proof. vm_compute. repeat split; discriminate. Qed.

Lemma C1_pattern_of_cursor_part_witness :
  reachable accept_all always_model echo_once qt_stays
    (init quick_off (fun _ => commands)) /\
  always_model ["open"] 1%Z = Some 0 /\
  outcome (on_update_completion accept_all always_model echo_once qt_stays
             ":" ["open"] 1 (init quick_off (fun _ => commands))) =
  Raise IndexError /\
  effects (on_update_completion accept_all always_model echo_once qt_stays
             ":" ["open"] 1 (init quick_off (fun _ => commands))) =
  [SetModel 0; ResizeCompletion].
Proof.
  split; [constructor|]. split; [reflexivity|].
  destruct (@C1_pattern_of_cursor_part accept_all always_model echo_once
              qt_stays (init quick_off (fun _ => commands)) ["open"] 1%Z 0
              (reachable_init _ _ _ _ _ _) eq_refl) as [_ [_ H]].
  destruct H as [H1 [H2 _]]; [discriminate|right; simpl; lia|].
  split; [exact H1|exact H2].
Defined.

(** C2: backwards from no selection in a model of two items. *)
Lemma C2_backward_counterexample :
  item_count accept_all commands = 2 /\
  option_map fst (_next_idx accept_all commands Invalid true) <>
  Some (last_item accept_all commands).
Proof. vm_compute. split; [reflexivity|discriminate]. Qed.

Lemma C2_none_cursor_first_item_witness :
  leaves accept_all sections <> [] /\
  _next_idx accept_all sections Invalid true = Some (ItemIdx 0 0, []).
Proof.
  assert (H : leaves accept_all sections <> []) by (vm_compute; discriminate).
  split; [exact H|].
  destruct (@C2_none_cursor_first_item accept_all sections true H) as [E _].
  exact E.
Defined.

Lemma C3_quick_complete_witness :
  _model (showing quick_on single) = Some 0 /\
  hd_error
    (effects (selectionChanged accept_all always_model echo_once qt_stays
                [ItemIdx 0 0] [] (showing quick_on single))) =
  Some (ChangeCompletedPart "quit" true).
Proof.
  split; [reflexivity|].
  destruct (@C3_quick_complete accept_all always_model echo_once qt_stays
              (showing quick_on single) (ItemIdx 0 0) [] [] 0 "quit"
              eq_refl eq_refl eq_refl) as [H _].
  destruct (H eq_refl) as [E _]. exact E.
Defined.

Lemma C4_echo_ignored_witness :
  data accept_all (models (showing quick_off commands) 0) (ItemIdx 0 1) =
  Some "open-tab" /\
  selectionChanged accept_all always_model echo_once qt_stays [ItemIdx 0 1] []
    (showing quick_off commands) =
  mkRun (Return tt) (set_ignore_change false (showing quick_off commands))
        [ChangeCompletedPart "open-tab" false].
Proof.
  split; [reflexivity|].
  destruct (@C4_echo_ignored accept_all always_model echo_once qt_stays
              (showing quick_off commands) (ItemIdx 0 1) [] [] 0 "open-tab"
              "/" ["foo"] 0%Z eq_refl eq_refl eq_refl) as [_ [E _]].
  exact E.
Defined.

Lemma C5_guard_scoped_witness :
  reachable accept_all always_model echo_once qt_stays
    (showing quick_off commands) /\
  _ignore_change
    (final (dispatch accept_all always_model echo_once qt_stays
              CompletionItemNext (showing quick_off commands))) = false.
Proof.
  assert (H : reachable accept_all always_model echo_once qt_stays
                (showing quick_off commands)).
  { apply (reachable_step (UpdateCompletion ":" [] 0)). constructor. }
  split; [exact H|].
  destruct (@C5_guard_scoped accept_all always_model echo_once qt_stays
              (showing quick_off commands) CompletionItemNext H)
    as [_ [E _]].
  exact E.
Defined.

Lemma C6_no_source_hides_witness :
  visible (showing quick_off commands) = true /\
  visible
    (final (on_update_completion accept_all always_model echo_once qt_stays
              "/" ["foo"] 0 (showing quick_off commands))) = false.
Proof.
  split; [reflexivity|].
  assert (H : reachable accept_all always_model echo_once qt_stays
                (showing quick_off commands)).
  { apply (reachable_step (UpdateCompletion ":" [] 0)). constructor. }
  destruct (@C6_no_source_hides accept_all always_model echo_once qt_stays
              (showing quick_off commands) "/" ["foo"] 0%Z H
              (or_introl eq_refl)) as [_ [E _]].
  exact E.
Defined.

Lemma C7_wraparound_closure_witness :
  In (ItemIdx 2 0) (leaves accept_all sections) /\
  iterate_next accept_all sections false 3 (ItemIdx 2 0) = Some (ItemIdx 2 0).
Proof.
  assert (H : In (ItemIdx 2 0) (leaves accept_all sections))
    by (vm_compute; auto).
  split; [exact H|].
  destruct (@C7_wraparound_closure accept_all sections (ItemIdx 2 0) false H)
    as [E _].
  exact E.
Defined.

(** C9: the selected item has the empty string as its text. *)
Lemma C9_empty_text_counterexample :
  data accept_all (models (showing quick_off blank_value) 0) (ItemIdx 0 0) =
  Some "" /\
  effects (selectionChanged accept_all always_model echo_none qt_stays
             [ItemIdx 0 0] [] (showing quick_off blank_value)) =
  [ChangeCompletedPart "" false].
Proof. vm_compute. split; reflexivity. Qed.

Lemma C10_hidden_navigation_noop_witness :
  visible (init quick_off (fun _ => commands)) = false /\
  completion_item_prev accept_all always_model echo_once qt_stays
    (init quick_off (fun _ => commands)) =
  mkRun (Return tt) (init quick_off (fun _ => commands)) [].
Proof.
  split; [reflexivity|].
  destruct (@C10_hidden_navigation_noop accept_all always_model echo_once
              qt_stays (init quick_off (fun _ => commands)) eq_refl) as [_ E].
  exact E.
Defined.

(** ** The further theorems at work *)

Lemma next_idx_neighbour_witness :
  leaves accept_all sections = [ItemIdx 0 0] ++ ItemIdx 0 1 :: [ItemIdx 2 0] /\
  option_map fst (_next_idx accept_all sections (ItemIdx 0 1) false) =
  Some (ItemIdx 2 0).
Proof.
  assert (H : leaves accept_all sections =
              [ItemIdx 0 0] ++ ItemIdx 0 1 :: [ItemIdx 2 0]) by reflexivity.
  split; [exact H|].
  destruct (@next_idx_neighbour accept_all sections _ _ _ H) as [E _].
  exact E.
Defined.

Lemma next_idx_there_and_back_witness :
  In (ItemIdx 2 0) (leaves accept_all sections) /\
  exists y,
    option_map fst (_next_idx accept_all sections (ItemIdx 2 0) false) = Some y /\
    In y (leaves accept_all sections) /\
    option_map fst (_next_idx accept_all sections y true) = Some (ItemIdx 2 0).
Proof.
  assert (H : In (ItemIdx 2 0) (leaves accept_all sections))
    by (vm_compute; auto).
  split; [exact H|].
  destruct (@next_idx_there_and_back accept_all sections (ItemIdx 2 0) H)
    as [E _].
  exact E.
Defined.

Lemma next_idx_scrolls_on_wrap_witness :
  leaves accept_all sections = [ItemIdx 0 0; ItemIdx 0 1] ++ ItemIdx 2 0 :: [] /\
  option_map snd (_next_idx accept_all sections (ItemIdx 2 0) false) =
  Some [ScrollTo (parent (first_item accept_all sections))].
Proof.
  assert (H : leaves accept_all sections =
              [ItemIdx 0 0; ItemIdx 0 1] ++ ItemIdx 2 0 :: []) by reflexivity.
  split; [exact H|].
  destruct (@next_idx_scrolls_on_wrap accept_all sections _ _ _ H)
    as [_ [E _]].
  exact E.
Defined.

Lemma next_idx_empty_model_witness :
  item_count accept_none sections = 0 /\
  option_map fst (_next_idx accept_none sections (ItemIdx 0 1) true) =
  Some Invalid.
Proof.
  split; [reflexivity|].
  apply (@next_idx_empty_model accept_none sections (ItemIdx 0 1) true).
  reflexivity.
Defined.

Lemma showing_reachable :
  reachable accept_all always_model echo_once qt_stays
    (showing quick_off commands).
Proof. apply (reachable_step (UpdateCompletion ":" [] 0)). constructor. Defined.

Lemma visible_has_model_witness :
  visible (showing quick_off commands) = true /\
  exists m, _model (showing quick_off commands) = Some m /\
            _lastmodel (showing quick_off commands) = Some m.
Proof.
  split; [reflexivity|].
  apply (@visible_has_model accept_all always_model echo_once qt_stays
           (showing quick_off commands) showing_reachable eq_refl).
Defined.

Lemma navigation_never_raises_witness :
  outcome (_next_prev_item accept_all always_model echo_once qt_stays true
             (showing quick_off commands)) = Return tt.
Proof.
  apply (@navigation_never_raises accept_all always_model echo_once qt_stays
           (showing quick_off commands) true showing_reachable).
Defined.

Lemma next_prev_item_writes_back_witness :
  visible (showing quick_off commands) = true /\
  exists idx scrolls d,
    _next_idx accept_all (models (showing quick_off commands) 0)
      (currentIndex (showing quick_off commands)) false =
    Some (idx, scrolls) /\
    In idx (leaves accept_all (models (showing quick_off commands) 0)) /\
    data accept_all (models (showing quick_off commands) 0) idx = Some d /\
    (selectedRow (showing quick_off commands) <> idx ->
     _next_prev_item accept_all always_model echo_once qt_stays false
       (showing quick_off commands) =
     mkRun (Return tt)
           (set_ignore_change false
              (set_selectedRow idx
                 (set_currentIndex idx (showing quick_off commands))))
           (scrolls ++ [ChangeCompletedPart d false])).
Proof.
  split; [reflexivity|].
  apply (@next_prev_item_writes_back accept_all always_model echo_once qt_stays
           (showing quick_off commands) false 0 eq_refl eq_refl);
    [vm_compute; discriminate|reflexivity].
Defined.

Lemma on_update_raises_only_index_error_witness :
  outcome (on_update_completion accept_all always_model echo_once qt_stays
             ":" ["open"] (-2) (showing quick_off commands)) =
  Raise IndexError.
Proof.
  destruct (@on_update_raises_only_index_error accept_all always_model
              echo_once qt_stays (showing quick_off commands) ":" ["open"]
              (-2)%Z showing_reachable) as [_ [_ H]].
  apply H. split; [reflexivity|]. split; [now exists 0|].
  split; [discriminate|left; simpl; lia].
Defined.

Lemma on_update_shows_items_witness :
  always_model ["op"] 0%Z = Some 0 /\
  visible (final (on_update_completion accept_prefix always_model echo_once
                    qt_stays ":" ["op"] 0
                    (init quick_off (fun _ => commands)))) = true.
Proof.
  split; [reflexivity|].
  destruct (@on_update_shows_items accept_prefix always_model echo_once
              qt_stays (init quick_off (fun _ => commands)) ["op"] 0%Z 0 "op"
              (reachable_init _ _ _ _ _ _) eq_refl eq_refl) as [E _].
  exact E.
Defined.


(** The cursor comes back to the first part: the model is set again, and
    the first command is still the selected one. *)
Lemma on_update_same_model_again_witness :
  _lastmodel second_part = None /\
  _model second_part = Some 0 /\
  selectedRow second_part = ItemIdx 0 0 /\
  selectedRow
    (final (on_update_completion accept_prefix first_part_model echo_once
              qt_row_below ":" [""] 0 second_part)) = ItemIdx 0 0.
Proof.
  split; [reflexivity|]. split; [reflexivity|]. split; [reflexivity|].
  destruct (@on_update_same_model_again accept_prefix first_part_model
              echo_once qt_row_below second_part [""] 0%Z 0 ""
              eq_refl eq_refl eq_refl eq_refl eq_refl eq_refl)
    as [_ [_ [_ [_ E]]]].
  exact E.
Defined.

Lemma resize_columns_fills_width_witness :
  (0 <= 1023)%Z /\
  _resize_columns 1023 false 16 = Some [(0, 204%Z); (1, 716%Z); (2, 102%Z)].
Proof.
  assert (H : (0 <= 1023)%Z) by lia.
  split; [exact H|].
  destruct (@resize_columns_fills_width 1023 16 H) as [E _]. exact E.
Defined.

Lemma import_chromium_lines_witness :
  import_chromium twice_bookmarked =
  Some ["Home http://example.org/"; "Home again http://example.org/"] /\
  List.length ["Home http://example.org/"; "Home again http://example.org/"] <=
  List.length twice_bookmarked.
Proof.
  assert (H : import_chromium twice_bookmarked =
              Some ["Home http://example.org/";
                    "Home again http://example.org/"]) by reflexivity.
  split; [exact H|].
  destruct (@import_chromium_lines twice_bookmarked _ H) as [E _]. exact E.
Defined.

Lemma import_chromium_keeps_all_witness :
  import_chromium twice_bookmarked = Some (map bookmark_line twice_bookmarked).
Proof.
  apply (@import_chromium_keeps_all twice_bookmarked).
  intros tag [H|[H|[]]]; subst tag; eexists; split; reflexivity.
Defined.
